(** * Option resolution and JSON configuration loading of cheribuild

    A shallow embedding of [pycheribuild/config/loader.py]: the values a
    configuration option can hold, their coercion ([_convertType],
    [_EnumArgparseType.__call__]), the layered lookup of one option
    ([loadOption], [_loadOptionImpl], [_loadFromJson], [_lookupKeyInJson]),
    the registration of the command line flags of an option and the loading
    of the JSON configuration file with its [#include] composition
    ([dict_raise_on_duplicates], [__load_json_with_comments],
    [__load_json_with_includes]).

    Python exceptions are results of type [result]; the interpreter and the
    operating system (environment variables, working directory, files, the
    terminal) are an explicit [World]. *)

From Stdlib Require Import ZArith Ascii String List Lia Bool DecimalString.
From stdpp Require Import base option list gmap strings.

Local Open Scope Z_scope.
Set Warnings "-register-all".
Set Default Proof Using "Type".

(** ** Characters and strings, as the [str] methods the loader calls

    A string is the sequence of its bytes; the classes of characters
    (digits, letters, white space) are those of ASCII. *)

Module Str.

Definition eqb (a b : string) : bool := bool_decide (a = b).

Definition char_eqb (a b : ascii) : bool := bool_decide (a = b).

Definition dquote : ascii := ascii_of_nat 34.
Definition squote : ascii := ascii_of_nat 39.

Definition code (c : ascii) : nat := nat_of_ascii c.

Definition in_range (lo hi : nat) (c : ascii) : bool :=
  (Nat.leb lo (code c) && Nat.leb (code c) hi)%bool.

Definition is_digit : ascii -> bool := in_range 48 57.
Definition is_lower : ascii -> bool := in_range 97 122.
Definition is_upper : ascii -> bool := in_range 65 90.

(** [\w] of a regular expression compiled with [re.ASCII]. *)
Definition is_word (c : ascii) : bool :=
  (is_digit c || is_lower c || is_upper c || char_eqb c "_")%bool.

(** [str.isspace] on ASCII: space, and the control characters 9 to 13
    and 28 to 31. *)
Definition is_space (c : ascii) : bool :=
  (char_eqb c " " || in_range 9 13 c || in_range 28 31 c)%bool.

(** The [whitespace] of [shlex]: space, tab, carriage return, newline. *)
Definition is_shlex_space (c : ascii) : bool :=
  (char_eqb c " " || Nat.eqb (code c) 9 || Nat.eqb (code c) 13
   || Nat.eqb (code c) 10)%bool.

Definition upper_char (c : ascii) : ascii :=
  if is_lower c then ascii_of_nat (code c - 32) else c.

Fixpoint map_chars (f : ascii -> ascii) (s : string) : string :=
  match s with
  | EmptyString => EmptyString
  | String c s' => String (f c) (map_chars f s')
  end.

(** [s.upper()], on the ASCII letters. *)
Definition upper : string -> string := map_chars upper_char.

Definition lower_char (c : ascii) : ascii :=
  if is_upper c then ascii_of_nat (code c + 32) else c.

(** [s.lower()], on the ASCII letters. *)
Definition lower : string -> string := map_chars lower_char.

(** [s.replace(a, b)] for one-character [a] and [b]. *)
Definition replace (a b : ascii) : string -> string :=
  map_chars (fun c => if char_eqb c a then b else c).

(** [s.startswith(p)] *)
Fixpoint startswith (s p : string) : bool :=
  match p, s with
  | EmptyString, _ => true
  | String a p', String b s' => char_eqb a b && startswith s' p'
  | String _ _, EmptyString => false
  end.

(** [c in s] *)
Fixpoint contains (c : ascii) (s : string) : bool :=
  match s with
  | EmptyString => false
  | String a s' => char_eqb a c || contains c s'
  end.

(** [s[n:]] *)
Fixpoint drop (n : nat) (s : string) : string :=
  match n, s with
  | O, _ => s
  | S n', String _ s' => drop n' s'
  | S _, EmptyString => EmptyString
  end.

(** [s[:n]] *)
Fixpoint take (n : nat) (s : string) : string :=
  match n, s with
  | O, _ => EmptyString
  | S n', String c s' => String c (take n' s')
  | S _, EmptyString => EmptyString
  end.

(** [s.lstrip(c)] for a one-character [c] *)
Fixpoint lstrip_char (c : ascii) (s : string) : string :=
  match s with
  | String a s' => if char_eqb a c then lstrip_char c s' else s
  | EmptyString => EmptyString
  end.

Fixpoint lstrip (s : string) : string :=
  match s with
  | String a s' => if is_space a then lstrip s' else s
  | EmptyString => EmptyString
  end.

(** [s.rstrip()]: a character is kept when something other than white
    space follows it or it is not white space itself. *)
Fixpoint rstrip (s : string) : string :=
  match s with
  | EmptyString => EmptyString
  | String a s' =>
      match rstrip s' with
      | EmptyString => if is_space a then EmptyString else String a EmptyString
      | r => String a r
      end
  end.

(** [s.strip()], for a string of ASCII characters *)
Definition strip (s : string) : string := rstrip (lstrip s).

(** [s.rstrip(c)] for a one-character [c] *)
Fixpoint rstrip_char (c : ascii) (s : string) : string :=
  match s with
  | EmptyString => EmptyString
  | String a s' =>
      match rstrip_char c s' with
      | EmptyString => if char_eqb a c then EmptyString else String a EmptyString
      | r => String a r
      end
  end.

(** [s.split(sep)] for a one-character [sep]: never the empty list. *)
Fixpoint split (sep : ascii) (s : string) : list string :=
  match s with
  | EmptyString => [EmptyString]
  | String c s' =>
      if char_eqb c sep then EmptyString :: split sep s'
      else match split sep s' with
           | [] => [String c EmptyString]
           | w :: ws => String c w :: ws
           end
  end.

(** [sep.join(l)] *)
Fixpoint join (sep : string) (l : list string) : string :=
  match l with
  | [] => EmptyString
  | [w] => w
  | w :: ws => w +:+ sep +:+ join sep ws
  end.

(** [s.find(c)] for a one-character [c]: the index of the first
    occurrence, [None] for Python's [-1]. *)
Fixpoint find (c : ascii) (s : string) : option nat :=
  match s with
  | EmptyString => None
  | String a s' => if char_eqb a c then Some O else S <$> find c s'
  end.

(** [s.rfind(c)] for a one-character [c], as Python's integer: [-1] when
    [c] does not occur. *)
Fixpoint rfind_from (i : Z) (c : ascii) (s : string) : Z :=
  match s with
  | EmptyString => -1
  | String a s' =>
      let r := rfind_from (i + 1) c s' in
      if 0 <=? r then r else if char_eqb a c then i else -1
  end.

Definition rfind (c : ascii) (s : string) : Z := rfind_from 0 c s.


(** A string of ASCII characters, the strings on which the functions of
    this module that look at the class or the case of a character
    ([is_space], [upper], [lower], [strip], ...) are the methods of
    Python's [str]; a character above 127 stands for no Python
    character here. *)
Definition is_ascii_char (c : ascii) : bool := Nat.ltb (code c) 128.

Fixpoint is_ascii (s : string) : bool :=
  match s with
  | EmptyString => true
  | String c s' => is_ascii_char c && is_ascii s'
  end.

End Str.

(** ** Python values

    The values an option, a JSON document or the command line can hold.
    JSON numbers with a fraction or an exponent (Python [float]) are left
    out of the embedding. *)

(** A [pathlib.PosixPath]: its root ([""], ["/"] or ["//"]) and its
    components. *)
Record Path := mkPath { root : string; parts : list string }.

(** A member of an [Enum] class, by the name of the class and of the
    member. *)
Record EnumMember := mkEnumMember { em_class : string; em_name : string }.

Inductive value :=
| VNone
| VBool (b : bool)
| VInt (n : Z)
| VStr (s : string)
| VList (l : list value)
| VDict (d : list (string * value))
| VPath (p : Path)
| VEnum (m : EnumMember).

(** A [dict] with string keys, in insertion order, one entry per key. *)
Abbreviation dict := (list (string * value)).

(** What the JSON decoder reads before [object_pairs_hook] sees it: an
    object is the list of its pairs in the order of the text, duplicates
    included. *)
Inductive raw_json :=
| RNull
| RBool (b : bool)
| RInt (n : Z)
| RStr (s : string)
| RArr (l : list raw_json)
| RObj (ps : list (string * raw_json)).

#[global] Instance Path_eq_dec : EqDecision Path.
Proof. solve_decision. Defined.

#[global] Instance EnumMember_eq_dec : EqDecision EnumMember.
Proof. solve_decision. Defined.

(** ** Exceptions *)

Inductive value_error :=
| InvalidIntLiteral (s : string)   (* invalid literal for int() with base 10 *)
| NoClosingQuotation               (* shlex *)
| NoEscapedCharacter.              (* shlex *)

Inductive exn :=
| ValueError (why : value_error)
| TypeError
| AttributeError
| KeyError
| AssertionError
| RecursionError
| EOFError
| JSONDecodeError
| ArgumentTypeError (enum : string) (choices : list string)
                    (* "%s: use one of {%s}" *)
| SyntaxError (key : string)       (* "duplicate key: %r" % (key,) *)
| FileNotFoundError (p : Path)
| OSError (p : Path)                (* any other failure of open() *)
| ArgumentError (option_string : string)
                    (* argparse: conflicting option string *)
| SystemExit (status : Z).

Inductive result (A : Type) :=
| Ok (a : A)
| Raise (e : exn).
Arguments Ok {A} a.
Arguments Raise {A} e.

#[global] Instance result_ret : MRet result := fun A a => Ok a.
#[global] Instance result_bind : MBind result := fun A B f m =>
  match m with Ok a => f a | Raise e => Raise e end.
#[global] Instance result_fmap : FMap result := fun A B f m =>
  match m with Ok a => Ok (f a) | Raise e => Raise e end.

(** [assert c] *)
Definition assert (c : bool) : result unit :=
  if c then Ok tt else Raise AssertionError.

Definition is_None (v : value) : bool :=
  match v with VNone => true | _ => false end.

(** ** Dictionaries *)

Module Dict.

(** [d.get(k)]; [None] when the key is absent. *)
Fixpoint get (k : string) (d : dict) : option value :=
  match d with
  | [] => None
  | (k', v) :: d' => if Str.eqb k' k then Some v else get k d'
  end.

(** [k in d] *)
Definition mem (k : string) (d : dict) : bool :=
  match get k d with Some _ => true | None => false end.

(** [d[k] = v]: the entry is replaced where it stands, a new key goes to
    the end. *)
Fixpoint set (k : string) (v : value) (d : dict) : dict :=
  match d with
  | [] => [(k, v)]
  | (k', v') :: d' =>
      if Str.eqb k' k then (k, v) :: d' else (k', v') :: set k v d'
  end.

(** [d.update(other)] *)
Definition update (d other : dict) : dict :=
  fold_left (fun acc kv => set kv.1 kv.2 acc) other d.

(** [d.get(k, None)] as a value. *)
Definition get_or_None (k : string) (d : dict) : value :=
  default VNone (get k d).

End Dict.

(** ** pathlib *)

Module Pathlib.

(** [splitroot] of the POSIX flavour: exactly two leading slashes are kept
    as the root ["//"], any other number of them is the root ["/"]. *)
Definition splitroot (part : string) : string * string :=
  if Str.startswith part "/" then
    let stripped := Str.lstrip_char "/" part in
    if (String.length part - String.length stripped =? 2)%nat
    then ("//", stripped) else ("/", stripped)
  else (EmptyString, part).

(** The components of the part after the root: empty components and ["."]
    are dropped, [".."] stays. *)
Definition components (rel : string) : list string :=
  filter (fun x => x <> EmptyString /\ x <> ".") (Str.split "/" rel).

(** [Path(s)] *)
Definition of_str (s : string) : Path :=
  let '(r, rel) := splitroot s in mkPath r (components rel).

(** [str(p)] *)
Definition to_str (p : Path) : string :=
  match root p, parts p with
  | EmptyString, [] => "."
  | r, ps => r +:+ Str.join "/" ps
  end.

(** [p.is_absolute()] *)
Definition is_absolute (p : Path) : bool :=
  negb (Str.eqb (root p) EmptyString).

(** Joining two parsed paths: a rooted right operand replaces the left
    one. *)
Definition join (a b : Path) : Path :=
  if is_absolute b then b else mkPath (root a) (parts a ++ parts b).

(** [p / s] for a string [s] *)
Definition div (p : Path) (s : string) : Path := join p (of_str s).

(** [p.parent]: the root and the empty path are their own parents. *)
Definition parent (p : Path) : Path :=
  match parts p with
  | [] => p
  | ps => mkPath (root p) (removelast ps)
  end.

(** [p.absolute()], with [cwd] the result of [os.getcwd()]. *)
Definition absolute (cwd : string) (p : Path) : Path :=
  if is_absolute p then p else join (of_str cwd) p.

End Pathlib.

(** ** The interpreter and the operating system *)

(** One argument of a message: a string or value as passed, or [str(e)]
    of a caught exception. *)
Inductive msg_part :=
| MVal (v : value)
| MExn (e : exn).

Record World := mkWorld {
  (** [os.environ] *)
  environ : gmap string string;
  (** [os.getcwd()] *)
  getcwd : string;
  (** [pwd.getpwuid(os.getuid()).pw_dir]; [None] for [KeyError] *)
  pw_dir_uid : option string;
  (** [pwd.getpwnam(name).pw_dir]; [None] for [KeyError] *)
  pw_dir_nam : string -> option string;
  (** [repr] of a list or a dict: the layout is the interpreter's *)
  repr : value -> string;
  (** [path.exists()] *)
  exists_ : Path -> bool;
  (** [path.open("r").readlines()] *)
  readlines : Path -> result (list string);
  (** the syntax tree [json.loads] builds for a text, before the pairs
      hook; [None] for a text that is not JSON *)
  json_decode : string -> option raw_json;
  (** [sys.__stdin__.isatty()] *)
  stdin_isatty : bool;
  (** [fatalError] of [pycheribuild/utils.py], called with the arguments
      of the message; it returns or raises *)
  fatalError : list msg_part -> result unit
}.

Module Py.

(** [bool(v)] *)
Definition bool_ (v : value) : bool :=
  match v with
  | VNone => false
  | VBool b => b
  | VInt n => negb (n =? 0)
  | VStr s => negb (Str.eqb s EmptyString)
  | VList l => match l with [] => false | _ => true end
  | VDict d => match d with [] => false | _ => true end
  | VPath _ => true
  | VEnum _ => true
  end.

(** The digits of an [int] literal: at least one digit, single
    underscores only between two digits. *)
Fixpoint digits (acc : Z) (after_digit : bool) (s : string) : option Z :=
  match s with
  | EmptyString => if after_digit then Some acc else None
  | String c s' =>
      if Str.is_digit c
      then digits (10 * acc + Z.of_nat (Str.code c - 48)) true s'
      else if (Str.char_eqb c "_" && after_digit)%bool
           then digits acc false s'
           else None
  end.

(** The white space [int()] skips around the literal of an ASCII
    string, C's [isspace]: space, tab, newline, vertical tab, form feed
    and carriage return. The separators 28 to 31, which [str.strip]
    removes, are not among them. *)
Definition is_c_space (c : ascii) : bool :=
  (Str.char_eqb c " " || Str.in_range 9 13 c)%bool.

Fixpoint lstrip_c (s : string) : string :=
  match s with
  | String a s' => if is_c_space a then lstrip_c s' else s
  | EmptyString => EmptyString
  end.

Fixpoint rstrip_c (s : string) : string :=
  match s with
  | EmptyString => EmptyString
  | String a s' =>
      match rstrip_c s' with
      | EmptyString => if is_c_space a then EmptyString else String a EmptyString
      | r => String a r
      end
  end.

(** [int(s)] for a string of ASCII characters, in base 10: white space
    around, a sign, the digits. *)
Definition int_of_str (s : string) : option Z :=
  match rstrip_c (lstrip_c s) with
  | String "+" r => digits 0 false r
  | String "-" r => Z.opp <$> digits 0 false r
  | r => digits 0 false r
  end.

(** [int(v)] *)
Definition int_ (v : value) : result Z :=
  match v with
  | VBool b => Ok (if b then 1 else 0)
  | VInt n => Ok n
  | VStr s =>
      match int_of_str s with
      | Some n => Ok n
      | None => Raise (ValueError (InvalidIntLiteral s))
      end
  | _ => Raise TypeError
  end.

(** [list(v)], for the values [_convertType] passes on: a string has been
    split before. *)
Definition list_ (v : value) : result (list value) :=
  match v with
  | VList l => Ok l
  | VStr s => Ok (map (fun c => VStr (String c EmptyString))
                      (list_ascii_of_string s))
  | VDict d => Ok (map (fun kv => VStr kv.1) d)
  | _ => Raise TypeError
  end.

(** [str(v)] *)
Definition str_ (w : World) (v : value) : string :=
  match v with
  | VNone => "None"
  | VBool b => if b then "True" else "False"
  | VInt n => DecimalString.NilZero.string_of_int (Z.to_int n)
  | VStr s => s
  | VPath p => Pathlib.to_str p
  | VEnum m => em_class m +:+ "." +:+ em_name m
  | VList _ | VDict _ => repr w v
  end.

(** *** [shlex.split(s)]: POSIX mode, white space splitting, no comments *)

Inductive sh_state :=
| ShSpace                 (* between tokens *)
| ShWord                  (* inside a word *)
| ShQuote (q : ascii)     (* inside quotes opened by [q] *)
| ShEscInWord             (* after a backslash, coming from a word *)
| ShEscInQuote (q : ascii). (* after a backslash inside [q] quotes *)

Definition is_quote (c : ascii) : bool :=
  (Str.char_eqb c Str.squote || Str.char_eqb c Str.dquote)%bool.

Definition is_escape (c : ascii) : bool := Str.char_eqb c "\".

Definition snoc (tok : string) (c : ascii) : string :=
  tok +:+ String c EmptyString.

(** [self.token or (self.posix and quoted)] *)
Definition has_token (tok : string) (quoted : bool) : bool :=
  (negb (Str.eqb tok EmptyString) || quoted)%bool.

(** The token a [read_token] call hands out at the end of the input, if
    any. *)
Definition emit (tok : string) (quoted : bool) : list string :=
  if has_token tok quoted then [tok] else [].

Fixpoint shlex_go (st : sh_state) (tok : string) (quoted : bool)
    (s : string) : result (list string) :=
  match s with
  | EmptyString =>
      match st with
      | ShSpace | ShWord => Ok (emit tok quoted)
      | ShQuote _ => Raise (ValueError NoClosingQuotation)
      | ShEscInWord | ShEscInQuote _ => Raise (ValueError NoEscapedCharacter)
      end
  | String c s' =>
      match st with
      | ShSpace =>
          if Str.is_shlex_space c then
            if has_token tok quoted
            then (tok ::.) <$> shlex_go ShSpace EmptyString false s'
            else shlex_go ShSpace tok quoted s'
          else if is_escape c then shlex_go ShEscInWord tok quoted s'
          else if is_quote c then shlex_go (ShQuote c) tok quoted s'
          else shlex_go ShWord (String c EmptyString) quoted s'
      | ShQuote q =>
          if Str.char_eqb c q then shlex_go ShWord tok true s'
          else if (is_escape c && Str.char_eqb q Str.dquote)%bool
               then shlex_go (ShEscInQuote q) tok true s'
               else shlex_go (ShQuote q) (snoc tok c) true s'
      | ShEscInWord => shlex_go ShWord (snoc tok c) quoted s'
      | ShEscInQuote q =>
          if (negb (is_escape c) && negb (Str.char_eqb c q))%bool
          then shlex_go (ShQuote q) (snoc (snoc tok "\") c) quoted s'
          else shlex_go (ShQuote q) (snoc tok c) quoted s'
      | ShWord =>
          if Str.is_shlex_space c then
            if has_token tok quoted
            then (tok ::.) <$> shlex_go ShSpace EmptyString false s'
            else shlex_go ShSpace tok quoted s'
          else if is_quote c then shlex_go (ShQuote c) tok quoted s'
          else if is_escape c then shlex_go ShEscInWord tok quoted s'
          else shlex_go ShWord (snoc tok c) quoted s'
      end
  end.

Definition shlex_split (s : string) : result (list string) :=
  shlex_go ShSpace EmptyString false s.

End Py.

(** ** [os.path.expandvars] and [os.path.expanduser] (posixpath) *)

Module OsPath.

Fixpoint span (p : ascii -> bool) (s : string) : string * string :=
  match s with
  | String c s' =>
      if p c then let '(a, b) := span p s' in (String c a, b)
      else (EmptyString, s)
  | EmptyString => (EmptyString, EmptyString)
  end.

(** A match of [\w+|\{[^}]*\}] at the start of [s], the text after a
    dollar sign: the name of the variable, the text matched and the text
    that follows it. *)
Definition match_var (s : string) : option (string * string * string) :=
  match span Str.is_word s with
  | (String c n, tail) => Some (String c n, String c n, tail)
  | (EmptyString, _) =>
      match s with
      | String "{" s' =>
          match Str.find "}" s' with
          | Some i =>
              let name := Str.take i s' in
              Some (name, "{" +:+ name +:+ "}", Str.drop (S i) s')
          | None => None
          end
      | _ => None
      end
  end.

(** The loop of [expandvars]: the value of a variable is not scanned
    again, a reference to a variable that is not set stays as it is. *)
Fixpoint expand_go (fuel : nat) (env : gmap string string) (s : string)
    : string :=
  match fuel, s with
  | O, _ => s
  | _, EmptyString => EmptyString
  | S fuel', String c s' =>
      if Str.char_eqb c "$" then
        match match_var s' with
        | Some (name, text, tail) =>
            match env !! name with
            | Some v => v +:+ expand_go fuel' env tail
            | None => String c text +:+ expand_go fuel' env tail
            end
        | None => String c (expand_go fuel' env s')
        end
      else String c (expand_go fuel' env s')
  end.

Definition expandvars (w : World) (path : string) : string :=
  if negb (Str.contains "$" path) then path
  else expand_go (S (String.length path)) (environ w) path.

Definition expanduser (w : World) (path : string) : string :=
  if negb (Str.startswith path "~") then path
  else
    let i := default (String.length path) (Str.find "/" path) in
    let userhome :=
      if (i =? 1)%nat then
        match environ w !! "HOME" with
        | Some h => Some h
        | None => pw_dir_uid w
        end
      else pw_dir_nam w (Str.take (i - 1) (Str.drop 1 path)) in
    match userhome with
    | None => path
    | Some h =>
        let r := Str.rstrip_char "/" h +:+ Str.drop i path in
        if Str.eqb r EmptyString then "/" else r
    end.

End OsPath.

(** ** Option descriptors *)

(** An [Enum] class: its name and the names of its members. *)
Record EnumClass := mkEnumClass {
  enum_name : string;
  enum_members : list string
}.

(** The [type] argument of [addOption]; an [Enum] class is wrapped in an
    [_EnumArgparseType] by [addOption]. *)
Inductive ValueType :=
| TStr
| TBool
| TInt
| TPath
| TList
| TEnum (e : EnumClass).

(** The classes of options: [DefaultValueOnlyConfigOption],
    [CommandLineConfigOption], [JsonAndCommandLineConfigOption]. *)
Inductive OptionClass :=
| DefaultValueOnly
| CommandLine
| JsonAndCommandLine.

(** A group of the parser an option is added to: one of the groups the
    loader creates, by its name, or the mutually exclusive group the
    constructor of a boolean option creates for the option and its
    negation. *)
Inductive GroupId :=
| NamedGroup (g : string)
| OwnGroup (option_name : string).

(** The [group] argument of an option: its name and whether it was made
    by [add_mutually_exclusive_group]. *)
Record Group := mkGroup { group_name : string; group_exclusive : bool }.

(** The [action] argument of [add_argument]. *)
Inductive ActionKind :=
| Store
| StoreTrue
| StoreFalse
| Append.

(** An [argparse.Action]: [default] is [None] for every action of the
    loader (checked by the constructor of an option) and is not a field
    here. *)
Record Action := mkAction {
  option_strings : list string;
  dest : string;
  kind : ActionKind;
  (** the values [choices] allows, if given *)
  choices : option (list string);
  (** the mutually exclusive group of the action, if any *)
  exclusive : option GroupId
}.

#[global] Instance EnumClass_eq_dec : EqDecision EnumClass.
Proof. solve_decision. Defined.

#[global] Instance ValueType_eq_dec : EqDecision ValueType.
Proof. solve_decision. Defined.

#[global] Instance Group_eq_dec : EqDecision Group.
Proof. solve_decision. Defined.

#[global] Instance GroupId_eq_dec : EqDecision GroupId.
Proof. solve_decision. Defined.

#[global] Instance ActionKind_eq_dec : EqDecision ActionKind.
Proof. solve_decision. Defined.

#[global] Instance Action_eq_dec : EqDecision Action.
Proof. solve_decision. Defined.

#[global] Instance OptionClass_eq_dec : EqDecision OptionClass.
Proof. solve_decision. Defined.

Section Options.

(** The configuration object ([CheriConfig]) and the project instance a
    computed default receives: both are defined outside the loader. *)
Context {CheriConfig Instance : Type}.

(** The [default] of an option: a literal, or something callable. *)
Inductive Default :=
| Literal (v : value)
| Computed (f : CheriConfig -> Instance -> value).

Record ConfigOption := mkConfigOption {
  cls : OptionClass;
  name : string;
  shortname : option string;
  default_ : Default;
  valueType : ValueType;
  _fallback_name : option string;
  (** [self.action]; a [DefaultValueOnlyConfigOption] has none *)
  action : option Action
}.

(** [fullOptionName] *)
Definition fullOptionName (o : ConfigOption) : string := name o.

(** The loader: the registry [options], the actions of [_parser], the
    parsed command line [_parsedArgs] (a namespace, [None] before
    [load()]) and the document [_JSON]. *)
Record Loader := mkLoader {
  (** the class of the options [addOption] makes by default *)
  option_cls : OptionClass;
  options : gmap string ConfigOption;
  parser : list Action;
  _parsedArgs : option (gmap string value);
  _JSON : dict
}.

End Options.

Arguments Default : clear implicits.
Arguments ConfigOption : clear implicits.
Arguments Loader : clear implicits.

(** ** argparse, as far as the loader uses it

    Long options are matched by their full spelling, with or without
    [=value]; abbreviated long options, clustered one-letter flags, the
    [--] separator and the help actions are not modelled. Positional
    arguments (the targets) and unknown options are skipped, as
    [parse_known_args] collects them apart. An error of the parser is
    [parser.error], which exits with status 2. What is proved about the
    flags of an option does not rest on this reading of the argument
    strings: it is stated over the actions the parser takes
    ([run_actions]). *)

Module Argparse.

(** The [dest] argparse derives from the option strings: the first long
    one, or else the first one, without its leading dashes and with every
    [-] turned into [_]. *)
Definition infer_dest (option_strings : list string) : string :=
  let long := filter (fun s => Str.startswith s "--" = true) option_strings in
  let chosen := match long, option_strings with
                | s :: _, _ => s
                | [], s :: _ => s
                | [], [] => EmptyString
                end in
  Str.replace "-" "_" (Str.lstrip_char "-" chosen).

(** The action registered for an option string. *)
Definition find_action (p : list Action) (s : string) : option Action :=
  List.find (fun a => bool_decide (s ∈ option_strings a)) p.

(** [add_argument]: an option string that is already taken is an
    [ArgumentError]. *)
Definition add_argument (p : list Action) (a : Action) : result (list Action) :=
  match List.find (fun s => bool_decide (is_Some (find_action p s)))
                  (option_strings a) with
  | Some s => Raise (ArgumentError s)
  | None => Ok (p ++ [a])
  end.

(** The namespace before the arguments are read: every [dest] holds the
    default of its action, [None]. *)
Definition init_namespace (p : list Action) : gmap string value :=
  fold_left (fun ns a => match ns !! dest a with
                         | Some _ => ns
                         | None => <[dest a := VNone]> ns
                         end) p ∅.

(** [tok.split("=", 1)] *)
Definition split_eq (tok : string) : string * option string :=
  match Str.find "=" tok with
  | Some i => (Str.take i tok, Some (Str.drop (S i) tok))
  | None => (tok, None)
  end.

(** The option an argument string stands for, with its explicit
    argument. *)
Definition parse_optional (p : list Action) (tok : string)
    : option (Action * option string) :=
  if negb (Str.startswith tok "-") then None
  else match find_action p tok with
       | Some a => Some (a, None)
       | None =>
           let '(flag, arg) := split_eq tok in
           match arg, find_action p flag with
           | Some v, Some a => Some (a, Some v)
           | _, _ => None
           end
       end.

(** An argument string that cannot be the value of an option: it starts
    with a dash and is not a lone dash, holds no space and is not a
    negative number. *)
Definition is_negative_number (tok : string) : bool :=
  match tok with
  | String "-" r =>
      let '(a, b) := OsPath.span Str.is_digit r in
      match b with
      | EmptyString => negb (Str.eqb a EmptyString)
      | String "." f =>
          let '(d, e) := OsPath.span Str.is_digit f in
          (negb (Str.eqb d EmptyString) && Str.eqb e EmptyString)%bool
      | _ => false
      end
  | _ => false
  end.

Definition looks_like_option (p : list Action) (tok : string) : bool :=
  (Str.startswith tok "-" &&
   (bool_decide (is_Some (parse_optional p tok))
    || (negb (Str.eqb tok "-") && negb (is_negative_number tok)
        && negb (Str.contains " " tok))))%bool.

(** An action of the same mutually exclusive group was seen before. *)
Definition conflicts (seen : list Action) (a : Action) : bool :=
  match exclusive a with
  | None => false
  | Some g =>
      existsb (fun b => bool_decide (exclusive b = Some g /\ b <> a)) seen
  end.

Definition check_choice (a : Action) (v : string) : result unit :=
  match choices a with
  | Some cs => if bool_decide (v ∈ cs) then Ok tt else Raise (SystemExit 2)
  | None => Ok tt
  end.

(** What an action stores for the strings it received. *)
Definition take_action (a : Action) (arg : option string)
    (ns : gmap string value) : result (gmap string value) :=
  match kind a, arg with
  | StoreTrue, None => Ok (<[dest a := VBool true]> ns)
  | StoreFalse, None => Ok (<[dest a := VBool false]> ns)
  | Store, Some v => _ ← check_choice a v; Ok (<[dest a := VStr v]> ns)
  | Append, Some v =>
      _ ← check_choice a v;
      let items := match ns !! dest a with
                   | Some (VList l) => l
                   | _ => []
                   end in
      Ok (<[dest a := VList (items ++ [VStr v])]> ns)
  | _, _ => Raise (SystemExit 2)
  end.

Definition takes_value (a : Action) : bool :=
  match kind a with Store | Append => true | _ => false end.

Fixpoint parse_go (p : list Action) (seen : list Action)
    (ns : gmap string value) (argv : list string)
    : result (gmap string value) :=
  match argv with
  | [] => Ok ns
  | tok :: rest =>
      match parse_optional p tok with
      | None => parse_go p seen ns rest
      | Some (a, explicit) =>
          if conflicts seen a then Raise (SystemExit 2)
          else match explicit, takes_value a, rest with
               | None, true, v :: rest' =>
                   if looks_like_option p v then Raise (SystemExit 2)
                   else ns' ← take_action a (Some v) ns;
                        parse_go p (a :: seen) ns' rest'
               | _, _, _ =>
                   ns' ← take_action a explicit ns;
                   parse_go p (a :: seen) ns' rest
               end
      end
  end.

(** The actions the parser takes for a command line, each with the
    explicit argument it is called with, in the order of the command
    line: an action that conflicts with one taken before is an error, and
    so is every error of an action. Which actions the parser takes for an
    argument string (by its full spelling, an abbreviation, [=value]) is
    the business of [argparse]. *)
Fixpoint run_actions (seen : list Action) (ns : gmap string value)
    (taken : list (Action * option string)) : result (gmap string value) :=
  match taken with
  | [] => Ok ns
  | (a, arg) :: rest =>
      if conflicts seen a then Raise (SystemExit 2)
      else ns' ← take_action a arg ns; run_actions (a :: seen) ns' rest
  end.

(** [parse_known_args], from [sys.argv[1:]] to the namespace. *)
Definition parse_known_args (p : list Action) (argv : list string)
    : result (gmap string value) :=
  parse_go p [] (init_namespace p) argv.

End Argparse.

(** ** Registering options *)

Section Registration.

Context {CheriConfig Instance : Type}.

Abbreviation ConfigOption := (ConfigOption CheriConfig Instance).
Abbreviation Loader := (Loader CheriConfig Instance).
Abbreviation Default := (Default CheriConfig Instance).

Definition is_enum_type (t : ValueType) : bool :=
  match t with TEnum _ => true | _ => false end.

(** The assertions of [ConfigOptionBase.__init__] on the default of an
    enum option. *)
Definition check_enum_default (d : Default) (t : ValueType) : result unit :=
  match d with
  | Literal VNone | Computed _ => Ok tt
  | Literal v =>
      if ((match v with VEnum _ => true | _ => false end) || is_enum_type t)%bool
      then match v with
           | VList [] => Ok tt
           | VEnum _ => assert (is_enum_type t)
           | _ => Raise AssertionError
           end
      else Ok tt
  end.

(** [name[:slashIndex + 1] + "no-" + name[slashIndex + 1:]] with
    [slashIndex = name.rfind("/")] *)
Definition negatedName (name : string) : string :=
  let slashIndex := Str.rfind "/" name in
  let cut := Z.to_nat (slashIndex + 1) in
  Str.take cut name +:+ "no-" +:+ Str.drop cut name.

(** [if self.shortname:] *)
Definition has_shortname (sn : option string) : option string :=
  match sn with
  | Some EmptyString | None => None
  | Some s => Some s
  end.

(** [CommandLineConfigOption.__init__], for the class [c] of the option:
    the option and the parser with its flags. *)
Definition CommandLineConfigOption_init (c : OptionClass) (p : list Action)
    (name : string) (shortname : option string) (dflt : Default)
    (t : ValueType) (group : option Group) (fallback : option string)
    (action_kw : option ActionKind) (choices_kw : option (list string))
    : result (ConfigOption * list Action) :=
  _ ← check_enum_default dflt t;
  let own_group := bool_decide (t = TBool /\ group = None) in
  _ ← (if own_group
       then match action_kw with
            | None => Raise KeyError
            | Some k => assert (bool_decide (k = StoreTrue))
            end
       else Ok tt);
  let excl :=
    if own_group then Some (OwnGroup name)
    else match group with
         | Some g => if group_exclusive g
                     then Some (NamedGroup (group_name g)) else None
         | None => None
         end in
  let strings :=
    match has_shortname shortname with
    | Some sn => ["--" +:+ name; "-" +:+ sn]
    | None => ["--" +:+ name]
    end in
  let act := mkAction strings (Argparse.infer_dest strings)
                      (default Store action_kw) choices_kw excl in
  p1 ← Argparse.add_argument p act;
  p2 ← (if bool_decide (t = TBool)
        then Argparse.add_argument p1
               (mkAction ["--" +:+ negatedName name] (dest act) StoreFalse
                         None excl)
        else Ok p1);
  Ok (@mkConfigOption CheriConfig Instance c name shortname dflt t
        fallback (Some act), p2).

(** [DefaultValueOnlyConfigOption.__init__]: the keyword arguments, the
    fallback name among them, are dropped. *)
Definition DefaultValueOnlyConfigOption_init (name : string)
    (shortname : option string) (dflt : Default) (t : ValueType)
    : result ConfigOption :=
  _ ← check_enum_default dflt t;
  Ok (@mkConfigOption CheriConfig Instance DefaultValueOnly name shortname
        dflt t None None).

(** [addOption]; [cls_kw] is the [option_cls] argument. *)
Definition addOption (ld : Loader) (name : string)
    (shortname : option string) (dflt : Default) (t : ValueType)
    (group : option Group) (fallback : option string)
    (cls_kw : option OptionClass) (action_kw : option ActionKind)
    : result (ConfigOption * Loader) :=
  let c := default (option_cls ld) cls_kw in
  '(choices_kw) ←
    match t with
    | TEnum e =>
        _ ← assert (bool_decide (action_kw = None \/ action_kw = Some Append));
        Ok (Some (map Str.lower (enum_members e)))
    | _ => Ok None
    end;
  '(o, p) ←
    match c with
    | DefaultValueOnly =>
        o ← DefaultValueOnlyConfigOption_init name shortname dflt t;
        Ok (o, parser ld)
    | _ => CommandLineConfigOption_init c (parser ld) name shortname dflt
             t group fallback action_kw choices_kw
    end;
  _ ← assert (negb (bool_decide (is_Some (options ld !! name))));
  Ok (o, @mkLoader CheriConfig Instance (option_cls ld)
           (<[name := o]> (options ld)) p (_parsedArgs ld) (_JSON ld)).

(** [addBoolOption] *)
Definition addBoolOption (ld : Loader) (name : string)
    (shortname : option string) (dflt : bool) (group : option Group)
    (fallback : option string) : result (ConfigOption * Loader) :=
  addOption ld name shortname (Literal (VBool dflt)) TBool group fallback
            None (Some StoreTrue).

(** [addCommandLineOnlyBoolOption]; [fallback] is the [_fallback_name]
    among its keyword arguments, which are passed on to [addOption]. *)
Definition addCommandLineOnlyBoolOption (ld : Loader) (name : string)
    (shortname : option string) (dflt : bool) (group : option Group)
    (fallback : option string) : result (ConfigOption * Loader) :=
  addOption ld name shortname (Literal (VBool dflt)) TBool group fallback
            (Some CommandLine) (Some StoreTrue).

End Registration.

(** ** Coercion and resolution of one option *)

(** [_EnumArgparseType.__call__] for the enum class [e]: a list is
    converted element by element, a member of [e] is returned as it is, a
    string is looked up by its upper-cased name with [-] turned into [_].
    Any other value has no [upper] method. *)
Fixpoint enum_call (e : EnumClass) (astring : value) : result value :=
  match astring with
  | VList l =>
      VList <$>
        (fix each (l : list value) : result (list value) :=
           match l with
           | [] => Ok []
           | a :: l' => a' ← enum_call e a; r ← each l'; Ok (a' :: r)
           end) l
  | VEnum m =>
      if bool_decide (em_class m = enum_name e) then Ok astring
      else Raise AttributeError
  | VStr s =>
      let enum_value_name := Str.replace "-" "_" (Str.upper s) in
      if bool_decide (enum_value_name ∈ enum_members e)
      then Ok (VEnum (mkEnumMember (enum_name e) enum_value_name))
      else Raise (ArgumentTypeError (enum_name e)
                    (map Str.lower (enum_members e)))
  | _ => Raise AttributeError
  end.

(** [isinstance(valueType, type) and issubclass(valueType, Sequence)],
    for a [valueType] other than [str]. *)
Definition is_sequence_type (t : ValueType) : bool :=
  match t with TList => true | _ => false end.

(** [self.valueType(result)] for the types other than [Path]. *)
Definition call_type (w : World) (t : ValueType) (v : value) : result value :=
  match t with
  | TStr => Ok (VStr (Py.str_ w v))
  | TBool => Ok (VBool (Py.bool_ v))
  | TInt => VInt <$> Py.int_ v
  | TList => VList <$> Py.list_ v
  | TEnum e => enum_call e v
  | TPath => Ok (VPath (Pathlib.of_str (Py.str_ w v)))
  end.

(** [_convertType] for an option of value type [t]. *)
Definition _convertType (w : World) (t : ValueType) (result_ : value)
    : result value :=
  if is_None result_ then Ok VNone
  else
    result_ ←
      match result_ with
      | VStr stringValue =>
          if (negb (bool_decide (t = TStr)) && is_sequence_type t)%bool
          then (fun l => VList (map VStr l)) <$> Py.shlex_split stringValue
          else Ok result_
      | _ => Ok result_
      end;
    if bool_decide (t = TPath) then
      let expanded :=
        OsPath.expanduser w (OsPath.expandvars w (Py.str_ w result_)) in
      Ok (VPath (Pathlib.absolute (getcwd w) (Pathlib.of_str expanded)))
    else call_type w t result_.

Section Resolution.

Context {CheriConfig Instance : Type}.

Abbreviation ConfigOption := (ConfigOption CheriConfig Instance).
Abbreviation Loader := (Loader CheriConfig Instance).

(** [_getDefaultValue] *)
Definition _getDefaultValue (o : ConfigOption) (config : CheriConfig)
    (instance : Instance) : value :=
  match default_ o with
  | Computed f => f config instance
  | Literal v => v
  end.

(** [loadFromCommandLine]: the attribute [action.dest] of the parsed
    arguments. *)
Definition loadFromCommandLine (ld : Loader) (o : ConfigOption)
    : result value :=
  match _parsedArgs ld with
  | None => Raise AssertionError
  | Some ns =>
      match action o with
      | None => Raise AttributeError
      | Some a =>
          match ns !! dest a with
          | None => Raise AssertionError
          | Some v => Ok v
          end
      end
  end.

(** [obj.get(k, dflt)] on a value that need not be a dict. *)
Definition get_attr (obj : value) (k : string) (dflt : value) : result value :=
  match obj with
  | VDict d => Ok (default dflt (Dict.get k d))
  | _ => Raise AttributeError
  end.

(** The loop [for objRef in jsonPath: jsonObject = jsonObject.get(objRef, {})] *)
Fixpoint walk_json (jsonObject : value) (jsonPath : list string)
    : result value :=
  match jsonPath with
  | [] => Ok jsonObject
  | objRef :: rest =>
      next ← get_attr jsonObject objRef (VDict []);
      walk_json next rest
  end.

(** [_lookupKeyInJson] *)
Definition _lookupKeyInJson (js : dict) (fullOptionName : string)
    : result value :=
  match Dict.get fullOptionName js with
  | Some v => Ok v
  | None =>
      let jsonPath := Str.split "/" fullOptionName in
      let jsonKey := List.last jsonPath EmptyString in
      let jsonPath := removelast jsonPath in
      jsonObject ← walk_json (VDict js) jsonPath;
      get_attr jsonObject jsonKey VNone
  end.

(** The loop of [_loadFromJson] over the option strings: the first long
    spelling whose key holds a value. *)
Fixpoint old_json_key (js : dict) (option_strings : list string)
    : result (value * option string) :=
  match option_strings with
  | [] => Ok (VNone, None)
  | optionName :: rest =>
      if Str.startswith optionName "--" then
        let jsonKey := Str.drop 2 optionName in
        r ← _lookupKeyInJson js jsonKey;
        if negb (is_None r) then Ok (r, Some jsonKey)
        else old_json_key js rest
      else old_json_key js rest
  end.

(** [_loadFromJson]: the value and the key it was found under. *)
Definition _loadFromJson (ld : Loader) (o : ConfigOption)
    (fullOptionName : string) : result (value * option string) :=
  match action o with
  | None => Raise AttributeError
  | Some a =>
      r ← _lookupKeyInJson (_JSON ld) fullOptionName;
      '(r, used_key) ←
        (if is_None r then old_json_key (_JSON ld) (option_strings a)
         else Ok (r, Some fullOptionName));
      let r := if is_None r then Dict.get_or_None (dest a) (_JSON ld) else r in
      Ok (r, used_key)
  end.

(** [fromCmdLine != self.action.default]: the default of the action is
    [None], and [!=] against [None] holds for every other value. *)
Definition ne_action_default (fromCmdLine : value) : bool :=
  negb (is_None fromCmdLine).

(** [_loadOptionImpl], by the class of the option. The option name passed
    as [target_option_name] is only printed. *)
Definition _loadOptionImpl (ld : Loader) (o : ConfigOption) : result value :=
  match cls o with
  | DefaultValueOnly => Ok VNone
  | CommandLine => loadFromCommandLine ld o
  | JsonAndCommandLine =>
      fromCmdLine ← loadFromCommandLine ld o;
      if (negb (is_None fromCmdLine) && ne_action_default fromCmdLine)%bool
      then Ok fromCmdLine
      else
        fromJson ← _loadFromJson ld o (fullOptionName o);
        if negb (is_None fromJson.1) then Ok fromJson.1 else Ok VNone
  end.

(** The arguments [loadOption] passes to [fatalError]. *)
Definition invalid_value_message (o : ConfigOption) (result_ : value)
    (e : exn) : list msg_part :=
  [MVal (VStr "Invalid value for option '"); MVal (VStr (fullOptionName o));
   MVal (VStr "': could not convert '"); MVal result_; MVal (VStr "': ");
   MExn e].

(** The [try] block of [loadOption]: a [ValueError] of the conversion is
    handed to [fatalError], and [sys.exit()] follows. *)
Definition convert_or_exit (w : World) (o : ConfigOption) (result_ : value)
    : result value :=
  match _convertType w (valueType o) result_ with
  | Raise (ValueError why) =>
      _ ← fatalError w (invalid_value_message o result_ (ValueError why));
      Raise (SystemExit 0)
  | r => r
  end.

(** The fallback step of [loadOption]: from [--qtbase-mips/foo] to
    [--qtbase/foo]. *)
Definition load_fallback (ld : Loader) (o : ConfigOption) (result_ : value)
    : result value :=
  match is_None result_, _fallback_name o with
  | true, Some fallback_name =>
      match options ld !! fallback_name with
      | None => Raise AssertionError
      | Some fallback_option => _loadOptionImpl ld fallback_option
      end
  | _, _ => Ok result_
  end.

(** [loadOption] *)
Definition loadOption (w : World) (ld : Loader) (o : ConfigOption)
    (config : CheriConfig) (instance : Instance) : result value :=
  result_ ← _loadOptionImpl ld o;
  result_ ← load_fallback ld o result_;
  let result_ :=
    if is_None result_ then _getDefaultValue o config instance
    else result_ in
  convert_or_exit w o result_.

End Resolution.

(** ** Loading the JSON configuration file *)

(** [dict_raise_on_duplicates]: the loop over the ordered pairs, from the
    dict [d] built so far. *)
Fixpoint raise_on_duplicates (d : dict) (ordered_pairs : list (string * value))
    : result dict :=
  match ordered_pairs with
  | [] => Ok d
  | (k, v) :: rest =>
      if Dict.mem k d then Raise (SyntaxError k)
      else raise_on_duplicates (Dict.set k v d) rest
  end.

Definition dict_raise_on_duplicates (ordered_pairs : list (string * value))
    : result dict :=
  raise_on_duplicates [] ordered_pairs.

(** [json.loads(text, object_pairs_hook=dict_raise_on_duplicates)] on the
    syntax tree of the text: the decoder calls the hook when an object is
    complete, so the values of an object are decoded, in the order of the
    text, before its own pairs are checked. *)
Fixpoint decode (j : raw_json) : result value :=
  match j with
  | RNull => Ok VNone
  | RBool b => Ok (VBool b)
  | RInt n => Ok (VInt n)
  | RStr s => Ok (VStr s)
  | RArr l =>
      VList <$>
        (fix each (l : list raw_json) : result (list value) :=
           match l with
           | [] => Ok []
           | a :: l' => a' ← decode a; r ← each l'; Ok (a' :: r)
           end) l
  | RObj ps =>
      pairs ←
        (fix each (ps : list (string * raw_json))
           : result (list (string * value)) :=
           match ps with
           | [] => Ok []
           | (k, a) :: ps' => a' ← decode a; r ← each ps'; Ok ((k, a') :: r)
           end) ps;
      VDict <$> dict_raise_on_duplicates pairs
  end.

(** A line the loader drops before parsing: after trimming, it starts
    with [#] or [//]. *)
Definition is_comment_line (line : string) : bool :=
  let stripped := Str.strip line in
  (Str.startswith stripped "#" || Str.startswith stripped "//")%bool.

(** [__load_json_with_comments] *)
Definition load_json_with_comments (w : World) (config_path : Path)
    : result value :=
  lines ← readlines w config_path;
  let json_lines := filter (fun l => is_comment_line l = false) lines in
  match json_decode w (String.concat EmptyString json_lines) with
  | None => Raise JSONDecodeError
  | Some j => decode j
  end.

(** What the loader writes to the terminal while it loads the file. *)
Inductive event :=
| CouldNotLoad (p : Path) (e : exn)   (* "Could not load config file" p "-" e *)
| Prompt (p : Path).                   (* "Invalid config file p. Continue? y/[N]" *)

(** The terminal: the lines still to be read from standard input, and
    what was written, latest first. *)
Record Console := mkConsole { stdin : list string; written : list event }.

Definition print (ev : event) (con : Console) : Console :=
  mkConsole (stdin con) (ev :: written con).

(** [input(prompt)] *)
Definition input (prompt : event) (con : Console) : result string * Console :=
  match stdin con with
  | [] => (Raise EOFError, print prompt con)
  | line :: rest => (Ok line, mkConsole rest (prompt :: written con))
  end.

(** [except Exception] does not catch [SystemExit]. *)
Definition is_Exception (e : exn) : bool :=
  match e with SystemExit _ => false | _ => true end.

(** The [try] block of [__load_json_with_includes]: a file that cannot be
    loaded is reported; the exception is raised again unless standard
    input is a terminal and the answer to the prompt starts with [y], in
    which case the result stays the empty dict. *)
Definition load_or_ask (w : World) (config_path : Path) (con : Console)
    : result value * Console :=
  match load_json_with_comments w config_path with
  | Ok v => (Ok v, con)
  | Raise e =>
      if is_Exception e then
        let con := print (CouldNotLoad config_path e) con in
        if negb (stdin_isatty w) then (Raise e, con)
        else match input (Prompt config_path) con with
             | (Ok answer, con) =>
                 if Str.startswith (Str.lower answer) "y"
                 then (Ok (VDict []), con) else (Raise e, con)
             | (Raise e', con) => (Raise e', con)
             end
      else (Raise e, con)
  end.

(** [__load_json_with_includes]; [depth] is the number of nested calls
    the interpreter still allows, and the call that exceeds it raises
    [RecursionError]. *)
Fixpoint load_json_with_includes (depth : nat) (w : World)
    (config_path : Path) (con : Console) : result dict * Console :=
  match depth with
  | O => (Raise RecursionError, con)
  | S depth' =>
      match load_or_ask w config_path con with
      | (Raise e, con) => (Raise e, con)
      | (Ok (VDict result_), con) =>
          let include_value := Dict.get_or_None "#include" result_ in
          if Py.bool_ include_value then
            match include_value with
            | VStr s =>
                let included_path :=
                  Pathlib.div (Pathlib.parent config_path) s in
                match load_json_with_includes depth' w included_path con with
                | (Ok base_json, con) => (Ok (Dict.update base_json result_), con)
                | (Raise e, con) => (Raise e, con)
                end
            | _ => (Raise TypeError, con)
            end
          else (Ok result_, con)
      | (Ok _, con) => (Raise AttributeError, con)
      end
  end.

Section Loading.

Context {CheriConfig Instance : Type}.

Abbreviation Loader_ := (Loader CheriConfig Instance).

Definition with_JSON (ld : Loader_) (js : dict) : Loader_ :=
  @mkLoader CheriConfig Instance (option_cls ld) (options ld) (parser ld)
    (_parsedArgs ld) js.

Definition with_parsedArgs (ld : Loader_) (ns : gmap string value) : Loader_ :=
  @mkLoader CheriConfig Instance (option_cls ld) (options ld) (parser ld)
    (Some ns) (_JSON ld).

(** [_load_json_config_file], for a loader whose [_configPath] is set. *)
Definition _load_json_config_file (depth : nat) (w : World) (ld : Loader_)
    (_configPath : Path) (con : Console) : result Loader_ * Console :=
  if exists_ w _configPath then
    match load_json_with_includes depth w _configPath con with
    | (Ok js, con) => (Ok (with_JSON ld js), con)
    | (Raise e, con) => (Raise e, con)
    end
  else (Ok (with_JSON ld []), con).


End Loading.

(** ** The layers of a resolution *)

Section Layers.

Context {CheriConfig Instance : Type}.

Abbreviation Option_ := (ConfigOption CheriConfig Instance).
Abbreviation Loader' := (Loader CheriConfig Instance).

(** The first source that holds a value other than [None]. *)
Definition or_else (a b : result value) : result value :=
  r ← a; if is_None r then b else Ok r.

(** The command line layer of an option: its value in the parsed
    arguments, for the classes that read the command line. *)
Definition cmdline_layer (ld : Loader') (o : Option_) : result value :=
  match cls o with
  | DefaultValueOnly => Ok VNone
  | CommandLine | JsonAndCommandLine => loadFromCommandLine ld o
  end.

(** The JSON layer of an option: the value [_loadFromJson] finds under
    its name, for the class that reads the file. *)
Definition json_layer (ld : Loader') (o : Option_) : result value :=
  match cls o with
  | JsonAndCommandLine => fst <$> _loadFromJson ld o (fullOptionName o)
  | DefaultValueOnly | CommandLine => Ok VNone
  end.

(** A layer of the fallback option of [o]: nothing when [o] has no
    fallback name, an assertion failure when the name is not
    registered. *)
Definition of_fallback (ld : Loader') (o : Option_)
    (layer : Loader' -> Option_ -> result value) : result value :=
  match _fallback_name o with
  | None => Ok VNone
  | Some fallback_name =>
      match options ld !! fallback_name with
      | None => Raise AssertionError
      | Some fallback_option => layer ld fallback_option
      end
  end.

(** The default, for a lookup that found nothing, and the conversion. *)
Definition finish (w : World) (o : Option_) (config : CheriConfig)
    (instance : Instance) (found : result value) : result value :=
  r ← found;
  convert_or_exit w o
    (if is_None r then _getDefaultValue o config instance else r).

(** The order of the sources as the specification numbers them: (1) the
    command line value of the option, (2) the command line or JSON value
    of the fallback option, (3) the JSON value of the option, (4) the
    default. *)
Definition resolve_as_specified (w : World) (ld : Loader') (o : Option_)
    (config : CheriConfig) (instance : Instance) : result value :=
  finish w o config instance
    (or_else (cmdline_layer ld o)
       (or_else (or_else (of_fallback ld o cmdline_layer)
                         (of_fallback ld o json_layer))
          (json_layer ld o))).

(** The order of the sources the code follows: the command line value of
    the option, its JSON value, the command line value of the fallback
    option, the JSON value of the fallback option, the default. *)
Definition resolve_own_first (w : World) (ld : Loader') (o : Option_)
    (config : CheriConfig) (instance : Instance) : result value :=
  finish w o config instance
    (or_else (cmdline_layer ld o)
       (or_else (json_layer ld o)
          (or_else (of_fallback ld o cmdline_layer)
                   (of_fallback ld o json_layer)))).

(** An option is unset: nothing on the command line, nothing found in
    the JSON document. *)
Definition unset (ld : Loader') (o : Option_) : Prop :=
  cmdline_layer ld o = Ok VNone /\ json_layer ld o = Ok VNone.

(** The default of an option replaced. *)
Definition with_default (o : Option_) (d : Default CheriConfig Instance)
    : Option_ :=
  @mkConfigOption CheriConfig Instance (cls o) (name o) (shortname o) d
    (valueType o) (_fallback_name o) (action o).

(** The registry of a loader replaced. *)
Definition with_options (ld : Loader') (opts : gmap string Option_) : Loader' :=
  @mkLoader CheriConfig Instance (option_cls ld) opts (parser ld)
    (_parsedArgs ld) (_JSON ld).

(** The flags of a boolean option [o] in the parser [p]: [--name] is its
    [store_true] action [a], the negated name is the [store_false] action
    [neg] with the same [dest], and no other action of the parser writes
    to that [dest]. *)
Record bool_flags (p : list Action) (o : Option_) (a neg : Action) : Prop := {
  flags_action : action o = Some a;
  flags_kind : kind a = StoreTrue;
  flags_pos : Argparse.find_action p ("--" +:+ name o) = Some a;
  flags_neg_kind : kind neg = StoreFalse;
  flags_neg_dest : dest neg = dest a;
  flags_neg : Argparse.find_action p ("--" +:+ negatedName (name o)) = Some neg;
  flags_only : forall s b,
    Argparse.find_action p s = Some b -> dest b = dest a -> b = a \/ b = neg
}.

End Layers.

(** A key occurs twice in one object of a JSON text, at any depth. *)
Inductive has_dup_key : raw_json -> string -> Prop :=
| dup_here ps1 ps2 ps3 k a b :
    has_dup_key (RObj (ps1 ++ (k, a) :: ps2 ++ (k, b) :: ps3)) k
| dup_in_array l j k :
    j ∈ l -> has_dup_key j k -> has_dup_key (RArr l) k
| dup_in_object ps k' j k :
    (k', j) ∈ ps -> has_dup_key j k -> has_dup_key (RObj ps) k.

(** A path as [Path(s)] builds it: the root is empty, one slash or two,
    no component is empty, [.] or holds a slash. *)
Definition normal (p : Path) : Prop :=
  (root p = EmptyString \/ root p = "/" \/ root p = "//") /\
  Forall (fun c => c <> EmptyString /\ c <> "." /\ Str.contains "/" c = false)
         (parts p).

(** ** The options of the test suite

    The loader of [tests/test_argument_parsing.py] with the options its
    tests read: [skip-update], [cheri-bits], [source-root] and the
    [build-tests] option of [qtbase] with its per-target variant, which
    falls back to it. *)

Module Demo.

Definition start : Loader unit unit :=
  @mkLoader unit unit JsonAndCommandLine ∅ [] None [].

Definition qtbase : Group := mkGroup "qtbase" false.
Definition qtbase_mips : Group := mkGroup "qtbase-mips" false.

Definition registration
    : result (list (ConfigOption unit unit) * Loader unit unit) :=
  '(skip, ld) ← addBoolOption start "skip-update" None false None None;
  '(bits, ld) ← addOption ld "cheri-bits" None (Literal (VInt 256)) TInt None
                  None None None;
  '(src, ld) ← addOption ld "source-root" None (Literal (VStr "~/cheri")) TPath
                 None None None None;
  '(qt, ld) ← addBoolOption ld "qtbase/build-tests" None false (Some qtbase)
                None;
  '(qtm, ld) ← addBoolOption ld "qtbase-mips/build-tests" None false
                 (Some qtbase_mips) (Some "qtbase/build-tests");
  Ok ([skip; bits; src; qt; qtm], ld).

Definition unregistered : ConfigOption unit unit :=
  @mkConfigOption unit unit DefaultValueOnly EmptyString None (Literal VNone)
    TStr None None.

Definition registered : list (ConfigOption unit unit) :=
  Eval vm_compute in
    match registration with Ok (os, _) => os | Raise _ => [] end.

Definition loader : Loader unit unit :=
  Eval vm_compute in
    match registration with Ok (_, ld) => ld | Raise _ => start end.

Definition skip_update : ConfigOption unit unit :=
  Eval vm_compute in nth 0 registered unregistered.
Definition cheri_bits : ConfigOption unit unit :=
  Eval vm_compute in nth 1 registered unregistered.
Definition source_root : ConfigOption unit unit :=
  Eval vm_compute in nth 2 registered unregistered.
Definition qtbase_build_tests : ConfigOption unit unit :=
  Eval vm_compute in nth 3 registered unregistered.
Definition qtbase_mips_build_tests : ConfigOption unit unit :=
  Eval vm_compute in nth 4 registered unregistered.

(** The two actions of [skip-update] in the parser. *)
Definition skip_action : Action :=
  mkAction ["--skip-update"] "skip_update" StoreTrue None
           (Some (OwnGroup "skip-update")).
Definition no_skip_action : Action :=
  mkAction ["--no-skip-update"] "skip_update" StoreFalse None
           (Some (OwnGroup "skip-update")).

(** The namespace the parser builds for [argv]. *)
Definition parsed (argv : list string) : gmap string value :=
  match Argparse.parse_known_args (parser loader) argv with
  | Ok ns => ns
  | Raise _ => ∅
  end.

(** The loader after [load()] read the command line [argv] and found the
    document [js] in the configuration file. *)
Definition loaded (argv : list string) (js : dict) : Loader unit unit :=
  match Argparse.parse_known_args (parser loader) argv with
  | Ok ns => with_JSON (with_parsedArgs loader ns) js
  | Raise _ => loader
  end.

(** The loader after [load()], when the parser took the actions [taken]
    for the command line and the configuration file held the document
    [js]. *)
Definition after (taken : list (Action * option string)) (js : dict)
    : Loader unit unit :=
  match Argparse.run_actions [] (Argparse.init_namespace (parser loader))
          taken with
  | Ok ns => with_JSON (with_parsedArgs loader ns) js
  | Raise _ => loader
  end.

(** A world without files, whose standard input is not a terminal and
    whose [fatalError] exits with status 1. *)
Definition world : World :=
  mkWorld {[ "HOME" := "/home/user" ]} "/work" None (fun _ => None)
    (fun _ => EmptyString) (fun _ => false)
    (fun p => Raise (FileNotFoundError p)) (fun _ => None) false
    (fun _ => Raise (SystemExit 1)).


(** *** The files of [test_config_file_include] *)

Fixpoint assoc {K V} `{EqDecision K} (k : K) (l : list (K * V)) : option V :=
  match l with
  | [] => None
  | (k', v) :: l' => if decide (k' = k) then Some v else assoc k l'
  end.

(** A JSON string literal. *)
Definition q (s : string) : string :=
  String Str.dquote (s +:+ String Str.dquote EmptyString).

Definition newline : string := String (ascii_of_nat 10) EmptyString.

Definition common_128 : string := "{ " +:+ q "cheri-bits" +:+ ": 128 }".

Definition including : string :=
  "{ " +:+ q "cheri-bits" +:+ ": 256, " +:+ q "#include" +:+ ": "
  +:+ q "128-common.json" +:+ " }".

Definition duplicated : string :=
  "{ " +:+ q "#include" +:+ ": " +:+ q "128-common.json" +:+ ", "
  +:+ q "foo" +:+ ": " +:+ q "bar" +:+ ", "
  +:+ q "#include" +:+ ": " +:+ q "256-common.json" +:+ "}".

Definition bad_include : string :=
  "{ " +:+ q "#include" +:+ ": " +:+ q "bad-path.json" +:+ "}".

Definition cfg (file : string) : Path := mkPath "/" ["cfg"; file].

Definition files : list (Path * list string) :=
  [(cfg "128-common.json", [common_128]);
   (cfg "config.json", ["# the settings of this machine" +:+ newline; including]);
   (cfg "duplicate.json", [duplicated]);
   (cfg "missing.json", [bad_include])].

(** The syntax trees of the texts above. *)
Definition documents : list (string * raw_json) :=
  [(common_128, RObj [("cheri-bits", RInt 128)]);
   (including, RObj [("cheri-bits", RInt 256);
                     ("#include", RStr "128-common.json")]);
   (duplicated, RObj [("#include", RStr "128-common.json");
                      ("foo", RStr "bar");
                      ("#include", RStr "256-common.json")]);
   (bad_include, RObj [("#include", RStr "bad-path.json")])].

(** A world with these files; [tty] tells whether standard input is a
    terminal. *)
Definition file_world (tty : bool) : World :=
  mkWorld {[ "HOME" := "/home/user" ]} "/work" None (fun _ => None)
    (fun _ => EmptyString)
    (fun p => bool_decide (is_Some (assoc p files)))
    (fun p => match assoc p files with
              | Some lines => Ok lines
              | None => Raise (FileNotFoundError p)
              end)
    (fun text => assoc text documents) tty
    (fun _ => Raise (SystemExit 1)).

Definition console (answers : list string) : Console := mkConsole answers [].

(** A world in which the value of one environment variable names
    another one. *)
Definition nested_env_world : World :=
  mkWorld {[ "A" := "$B"; "B" := "x" ]} "/work" None (fun _ => None)
    (fun _ => EmptyString) (fun _ => false)
    (fun p => Raise (FileNotFoundError p)) (fun _ => None) false
    (fun _ => Raise (SystemExit 1)).

End Demo.

(** ** The rest of the loader *)

(** *** [_EnumArgparseType.__init__] *)

(** The [RuntimeError] of the constructor: the character that is not
    allowed and the member it was found in. *)
Inductive enum_error :=
| RuntimeError (c : ascii) (member : string).

(** The test of the inner loop, for an ASCII character:
    [c.isdigit() or c == "_"], or else [c.isalpha() and c.isupper()]. *)
Definition enum_char_ok (c : ascii) : bool :=
  ((Str.is_digit c || Str.char_eqb c "_")
   || ((Str.is_lower c || Str.is_upper c) && Str.is_upper c))%bool.

Fixpoint first_bad_char (s : string) : option ascii :=
  match s with
  | EmptyString => None
  | String c s' => if enum_char_ok c then first_bad_char s' else Some c
  end.

(** The loop over the members: the first character that is not allowed
    stops the construction. *)
Fixpoint check_members (members : list string) : option enum_error :=
  match members with
  | [] => None
  | m :: rest =>
      match first_bad_char m with
      | Some c => Some (RuntimeError c m)
      | None => check_members rest
      end
  end.

Definition _EnumArgparseType_init (enumclass : EnumClass)
    : enum_error + EnumClass :=
  match check_members (enum_members enumclass) with
  | Some e => inl e
  | None => inr enumclass
  end.

(** *** [JsonAndCommandLineConfigLoader.get_config_prefix] *)

(** [s.endswith(suffix)] *)
Definition endswith (s suffix : string) : bool :=
  (Nat.leb (String.length suffix) (String.length s)
   && Str.eqb (Str.drop (String.length s - String.length suffix) s) suffix)%bool.

(** [p.name]: the last component, the empty string for a path without
    components. *)
Definition Path_name (p : Path) : string := List.last (parts p) EmptyString.

(** [get_config_prefix], with [argv0] the value of [sys.argv[0]]. *)
Definition get_config_prefix (argv0 : string) : string :=
  let program := Path_name (Pathlib.of_str argv0) in
  if endswith program "cheribuild.py"
  then Str.take (String.length program - String.length "cheribuild.py") program
  else EmptyString.

(** [self.configdir]: [os.getenv("XDG_CONFIG_HOME") or
    os.path.expanduser("~/.config")] *)
Definition configdir (w : World) : string :=
  match environ w !! "XDG_CONFIG_HOME" with
  | Some (String c d) => String c d
  | _ => OsPath.expanduser w "~/.config"
  end.

(** [self.defaultConfigPath]: [Path(configdir, prefix + "cheribuild.json")] *)
Definition defaultConfigPath (w : World) (argv0 : string) : Path :=
  Pathlib.div (Pathlib.of_str (configdir w))
              (get_config_prefix argv0 +:+ "cheribuild.json").

(** *** [absolute_path_only] of [jenkinsconfig.py] *)



Section Caching.

Context {CheriConfig Instance : Type}.

Abbreviation Option' := (ConfigOption CheriConfig Instance).
Abbreviation Loader'' := (Loader CheriConfig Instance).

(** The [_cached] attributes of the options, by the name of the option;
    an option that is not in the map holds [None]. *)
Definition _cached (cache : gmap string value) (o : Option') : value :=
  default VNone (cache !! name o).

(** [__get__]: [instance] is the object the attribute is read on,
    [owner_ok] the outcome of [not self._owningClass or
    issubclass(owner, self._owningClass)]. The value is loaded when
    [_cached] is [None] and kept in [_cached]. *)
Definition __get__ (w : World) (ld : Loader'') (cache : gmap string value)
    (o : Option') (config : CheriConfig) (instance : option Instance)
    (owner_ok : bool) : result value * gmap string value :=
  match instance with
  | None => (Raise AssertionError, cache)
  | Some inst =>
      if negb owner_ok then (Raise AssertionError, cache)
      else if is_None (_cached cache o) then
        match loadOption w ld o config inst with
        | Ok v => (Ok v, <[name o := v]> cache)
        | Raise e => (Raise e, cache)
        end
      else (Ok (_cached cache o), cache)
  end.

(** [ConfigLoaderBase.reset]: [_cached] becomes [None] for every option
    of the registry. *)
Definition reset (ld : Loader'') (cache : gmap string value)
    : gmap string value :=
  foldr (fun o c => <[name o := VNone]> c) cache
        (map_to_list (options ld)).*2.

(** [addPathOption] *)
Definition addPathOption (ld : Loader'') (name : string)
    (shortname : option string) (dflt : Default CheriConfig Instance)
    (group : option Group) (fallback : option string)
    : result (Option' * Loader'') :=
  addOption ld name shortname dflt TPath group fallback None None.

(** [addCommandLineOnlyOption]; its keyword arguments, the
    [_fallback_name] among them, are passed on to [addOption]. *)
Definition addCommandLineOnlyOption (ld : Loader'') (name : string)
    (shortname : option string) (dflt : Default CheriConfig Instance)
    (t : ValueType) (group : option Group) (fallback : option string)
    (action_kw : option ActionKind) : result (Option' * Loader'') :=
  addOption ld name shortname dflt t group fallback (Some CommandLine)
            action_kw.

(** *** Validation of the configuration file *)

(** The alternate name of an option, for a short name of more than one
    character: the short name without its leading dashes. *)
Definition alternateName (o : Option') : option string :=
  match has_shortname (shortname o) with
  | Some sn =>
      if Nat.ltb 1 (String.length sn) then Some (Str.lstrip_char "-" sn)
      else None
  | None => None
  end.

(** The three ways a key is known: it is [#include], the name of an
    option, or the alternate name of one. *)
Definition known_key (ld : Loader'') (fullname : string) : bool :=
  (Str.eqb fullname "#include"
   || bool_decide (is_Some (options ld !! fullname))
   || existsb (fun o => bool_decide (alternateName o = Some fullname))
              (map_to_list (options ld)).*2)%bool.

(** [__validate]: the value returned and the names printed as unknown,
    in the order of the document. *)
Fixpoint validate (ld : Loader'') (prefix key : string) (v : value)
    : bool * list string :=
  let fullname := prefix +:+ key in
  match v with
  | VDict d =>
      (true,
       (fix each (d : dict) : list string :=
          match d with
          | [] => []
          | (k, v') :: d' => (validate ld (fullname +:+ "/") k v').2 ++ each d'
          end) d)
  | _ => if known_key ld fullname then (true, []) else (false, [fullname])
  end.

(** [_validateConfigFile]: the names printed as unknown. *)
Definition _validateConfigFile (ld : Loader'') : list string :=
  concat (map (fun kv => (validate ld EmptyString kv.1 kv.2).2) (_JSON ld)).

End Caching.

(** A world in which the file at [p] holds [lines]. *)
Definition with_file (w : World) (p : Path) (lines : list string) : World :=
  mkWorld (environ w) (getcwd w) (pw_dir_uid w) (pw_dir_nam w) (repr w)
    (fun q => if decide (q = p) then true else exists_ w q)
    (fun q => if decide (q = p) then Ok lines else readlines w q)
    (json_decode w) (stdin_isatty w) (fatalError w).

(** The names of the values of a JSON-like value that are not objects,
    with the path of keys that leads to them. *)
Inductive leaf_name : string -> string -> value -> string -> Prop :=
| leaf_here prefix key v :
    (forall d, v <> VDict d) -> leaf_name prefix key v (prefix +:+ key)
| leaf_inside prefix key d k v' fullname :
    (k, v') ∈ d ->
    leaf_name ((prefix +:+ key) +:+ "/") k v' fullname ->
    leaf_name prefix key (VDict d) fullname.

(** ** Further examples *)

Module More.

(** The build types of a CMake project. *)
Definition BuildType : EnumClass :=
  mkEnumClass "BuildType" ["DEBUG"; "RELEASE"; "REL_WITH_DEB_INFO"].

(** The loader of the test suite after its first registration, and
    after its second one. *)
Definition one_option : Loader unit unit :=
  Eval vm_compute in
    match addBoolOption Demo.start "skip-update" None false None None with
    | Ok (_, ld) => ld
    | Raise _ => Demo.start
    end.

Definition two_options : Loader unit unit :=
  Eval vm_compute in
    match addOption one_option "cheri-bits" None (Literal (VInt 256)) TInt
                    None None None None with
    | Ok (_, ld) => ld
    | Raise _ => one_option
    end.

(** A third registration: the build type of a project, an enum option. *)
Definition three_options : Loader unit unit :=
  Eval vm_compute in
    match addOption two_options "build-type" None (Literal VNone)
                    (TEnum BuildType) None None None None with
    | Ok (_, ld) => ld
    | Raise _ => two_options
    end.

Definition build_type : ConfigOption unit unit :=
  Eval vm_compute in
    default Demo.unregistered (options three_options !! "build-type").

(** [three_options] after [load()] read the command line [argv] and
    found the document [js]. *)
Definition loaded (argv : list string) (js : dict) : Loader unit unit :=
  match Argparse.parse_known_args (parser three_options) argv with
  | Ok ns => with_JSON (with_parsedArgs three_options ns) js
  | Raise _ => three_options
  end.

(** An option with an alternate name: [source-root], also written
    [source-dir]. *)
Definition with_alternate : result (ConfigOption unit unit * Loader unit unit) :=
  Eval vm_compute in
    addPathOption one_option "source-root" (Some "-source-dir")
      (Literal (VStr "~/cheri")) None None.

Definition source_root : ConfigOption unit unit :=
  Eval vm_compute in
    match with_alternate with Ok (o, _) => o | Raise _ => Demo.unregistered end.

Definition alternate_loader : Loader unit unit :=
  Eval vm_compute in
    match with_alternate with Ok (_, ld) => ld | Raise _ => one_option end.

Definition source_root_action : Action :=
  mkAction ["--source-root"; "--source-dir"] "source_root" Store None None.

(** An option of the Jenkins configuration that is only read from the
    command line. *)
Definition jenkins : result (ConfigOption unit unit * Loader unit unit) :=
  Eval vm_compute in
    addCommandLineOnlyBoolOption Demo.start "keep-install-dir" None false None
      None.

Definition keep_install_dir : ConfigOption unit unit :=
  Eval vm_compute in
    match jenkins with Ok (o, _) => o | Raise _ => Demo.unregistered end.

Definition jenkins_loader : Loader unit unit :=
  Eval vm_compute in
    match jenkins with Ok (_, ld) => ld | Raise _ => Demo.start end.

(** That loader after [load()] read an empty command line. *)
Definition jenkins_parsed : Loader unit unit :=
  match Argparse.parse_known_args (parser jenkins_loader) [] with
  | Ok ns => with_parsedArgs jenkins_loader ns
  | Raise _ => jenkins_loader
  end.

(** A loader of the class [DefaultValueOnlyConfigLoader], and an option
    registered with it under a fallback name. *)
Definition defaults_start : Loader unit unit :=
  @mkLoader unit unit DefaultValueOnly ∅ [] None [].

Definition defaults_registration
    : result (ConfigOption unit unit * Loader unit unit) :=
  Eval vm_compute in
    addOption defaults_start "qtbase-mips/cheri-bits" None
      (Literal (VInt 256)) TInt None (Some "cheri-bits") None None.

Definition default_bits : ConfigOption unit unit :=
  Eval vm_compute in
    match defaults_registration with
    | Ok (o, _) => o
    | Raise _ => Demo.unregistered
    end.

Definition defaults_loader : Loader unit unit :=
  Eval vm_compute in
    match defaults_registration with
    | Ok (_, ld) => ld
    | Raise _ => defaults_start
    end.

End More.

(** ** Induction principles and the loops of the nested functions *)

(** Induction on a JSON text, with the hypothesis for every element of an
    array and every value of an object. *)
Fixpoint raw_json_rect' (P : raw_json -> Prop)
    (Hnull : P RNull) (Hbool : forall b, P (RBool b))
    (Hint : forall n, P (RInt n)) (Hstr : forall s, P (RStr s))
    (Harr : forall l, Forall P l -> P (RArr l))
    (Hobj : forall ps, Forall (fun kv => P kv.2) ps -> P (RObj ps))
    (j : raw_json) : P j :=
  match j with
  | RNull => Hnull
  | RBool b => Hbool b
  | RInt n => Hint n
  | RStr s => Hstr s
  | RArr l =>
      Harr l ((fix all (l : list raw_json) : Forall P l :=
                 match l with
                 | [] => Forall_nil_2 P
                 | a :: l' =>
                     Forall_cons_2 P a l'
                       (raw_json_rect' P Hnull Hbool Hint Hstr Harr Hobj a)
                       (all l')
                 end) l)
  | RObj ps =>
      Hobj ps ((fix all (ps : list (string * raw_json))
                  : Forall (fun kv => P kv.2) ps :=
                  match ps with
                  | [] => Forall_nil_2 _
                  | kv :: ps' =>
                      Forall_cons_2 (fun kv => P kv.2) kv ps'
                        (raw_json_rect' P Hnull Hbool Hint Hstr Harr Hobj kv.2)
                        (all ps')
                  end) ps)
  end.

(** The decoding of the elements of an array and of the pairs of an
    object, as the loops inside [decode]. *)
Definition decode_each (l : list raw_json) : result (list value) :=
  (fix each (l : list raw_json) : result (list value) :=
     match l with
     | [] => Ok []
     | a :: l' => a' ← decode a; r ← each l'; Ok (a' :: r)
     end) l.

Definition decode_pairs (ps : list (string * raw_json))
    : result (list (string * value)) :=
  (fix each (ps : list (string * raw_json)) : result (list (string * value)) :=
     match ps with
     | [] => Ok []
     | (k, a) :: ps' => a' ← decode a; r ← each ps'; Ok ((k, a') :: r)
     end) ps.

(** Induction on a value, with the hypothesis for every element of a
    list. *)
Fixpoint value_list_rect (P : value -> Prop)
    (Hnone : P VNone) (Hbool : forall b, P (VBool b))
    (Hint : forall n, P (VInt n)) (Hstr : forall s, P (VStr s))
    (Hlist : forall l, Forall P l -> P (VList l))
    (Hdict : forall d, P (VDict d)) (Hpath : forall p, P (VPath p))
    (Henum : forall m, P (VEnum m))
    (v : value) : P v :=
  match v with
  | VNone => Hnone
  | VBool b => Hbool b
  | VInt n => Hint n
  | VStr s => Hstr s
  | VList l =>
      Hlist l ((fix all (l : list value) : Forall P l :=
                  match l with
                  | [] => Forall_nil_2 P
                  | a :: l' =>
                      Forall_cons_2 P a l'
                        (value_list_rect P Hnone Hbool Hint Hstr Hlist Hdict
                           Hpath Henum a)
                        (all l')
                  end) l)
  | VDict d => Hdict d
  | VPath p => Hpath p
  | VEnum m => Henum m
  end.

(** The loop of [_EnumArgparseType.__call__] over a list. *)
Definition enum_each (e : EnumClass) (l : list value) : result (list value) :=
  (fix each (l : list value) : result (list value) :=
     match l with
     | [] => Ok []
     | a :: l' => a' ← enum_call e a; r ← each l'; Ok (a' :: r)
     end) l.

(** A component of a path as [Path(s)] keeps it. *)
Definition component_ok (c : string) : Prop :=
  c <> EmptyString /\ c <> "." /\ Str.contains "/" c = false.

(** Induction on a value, with the hypothesis for every value of a
    dict. *)
Fixpoint value_dict_rect (P : value -> Prop)
    (Hnone : P VNone) (Hbool : forall b, P (VBool b))
    (Hint : forall n, P (VInt n)) (Hstr : forall s, P (VStr s))
    (Hlist : forall l, P (VList l))
    (Hdict : forall d, Forall (fun kv => P kv.2) d -> P (VDict d))
    (Hpath : forall p, P (VPath p)) (Henum : forall m, P (VEnum m))
    (v : value) : P v :=
  match v with
  | VNone => Hnone
  | VBool b => Hbool b
  | VInt n => Hint n
  | VStr s => Hstr s
  | VList l => Hlist l
  | VDict d =>
      Hdict d ((fix all (d : dict) : Forall (fun kv => P kv.2) d :=
                  match d with
                  | [] => Forall_nil_2 _
                  | kv :: d' =>
                      Forall_cons_2 (fun kv => P kv.2) kv d'
                        (value_dict_rect P Hnone Hbool Hint Hstr Hlist Hdict
                           Hpath Henum kv.2)
                        (all d')
                  end) d)
  | VPath p => Hpath p
  | VEnum m => Henum m
  end.

(** The loop of [__validate] over the items of an object. *)
Definition validate_each {CheriConfig Instance : Type}
    (ld : Loader CheriConfig Instance) (fullname : string) (d : dict)
    : list string :=
  (fix each (d : dict) : list string :=
     match d with
     | [] => []
     | (k, v') :: d' => (validate ld (fullname +:+ "/") k v').2 ++ each d'
     end) d.

(** A file and the files it includes one after the other, with their
    documents, the including one first; the last one includes nothing. *)
Inductive include_chain (w : World) : Path -> list dict -> Prop :=
| chain_end p d :
    load_json_with_comments w p = Ok (VDict d) ->
    Py.bool_ (Dict.get_or_None "#include" d) = false ->
    include_chain w p [d]
| chain_step p d inc ds :
    load_json_with_comments w p = Ok (VDict d) ->
    Dict.get "#include" d = Some (VStr inc) -> inc <> EmptyString ->
    include_chain w (Pathlib.div (Pathlib.parent p) inc) ds ->
    include_chain w p (d :: ds).

(** The value of a key in the first document that has it. *)
Fixpoint first_found (k : string) (ds : list dict) : option value :=
  match ds with
  | [] => None
  | d :: ds' =>
      match Dict.get k d with
      | Some v => Some v
      | None => first_found k ds'
      end
  end.

(** * Properties *)

(** ** The result monad *)

Lemma bind_Ok {A B} (m : result A) (f : A -> result B) (b : B) :
  m ≫= f = Ok b -> exists a, m = Ok a /\ f a = Ok b.
Proof. destruct m as [a|e]; [eauto | discriminate]. Qed.

Lemma fmap_Ok {A B} (f : A -> B) (m : result A) (b : B) :
  f <$> m = Ok b -> exists a, m = Ok a /\ b = f a.
Proof. destruct m as [a|e]; intros H; [injection H as <-; eauto | discriminate]. Qed.

Lemma is_None_true v : is_None v = true <-> v = VNone.
Proof. destruct v; simpl; split; congruence. Qed.

Lemma is_None_false v : is_None v = false <-> v <> VNone.
Proof. destruct v; simpl; split; congruence. Qed.

Lemma Str_eqb_eq a b : Str.eqb a b = true <-> a = b.
Proof. unfold Str.eqb. apply bool_decide_eq_true. Qed.

Lemma Str_eqb_neq a b : Str.eqb a b = false <-> a <> b.
Proof. unfold Str.eqb. apply bool_decide_eq_false. Qed.

Lemma Str_eqb_refl a : Str.eqb a a = true.
Proof. by apply Str_eqb_eq. Qed.

(** ** Dictionaries *)

Lemma Dict_get_elem_of k v (d : dict) : Dict.get k d = Some v -> (k, v) ∈ d.
Proof.
  induction d as [|[k' v'] d IH]; simpl; [discriminate|].
  destruct (Str.eqb k' k) eqn:E.
  - apply Str_eqb_eq in E as ->. intros [= ->]. left.
  - intros H. right. by apply IH.
Qed.

Lemma Dict_get_None k (d : dict) : Dict.get k d = None <-> k ∉ d.*1.
Proof.
  induction d as [|[k' v'] d IH]; simpl.
  - split; [intros _; apply not_elem_of_nil | done].
  - rewrite not_elem_of_cons. destruct (Str.eqb k' k) eqn:E.
    + apply Str_eqb_eq in E as ->. split; [discriminate | tauto].
    + apply Str_eqb_neq in E. rewrite IH. split; [|tauto].
      intros H; split; [congruence | done].
Qed.

Lemma Dict_mem_false k (d : dict) : Dict.mem k d = false <-> k ∉ d.*1.
Proof.
  unfold Dict.mem. rewrite <- Dict_get_None.
  destruct (Dict.get k d); split; congruence.
Qed.

Lemma Dict_get_set k k' v (d : dict) :
  Dict.get k' (Dict.set k v d) = if Str.eqb k k' then Some v else Dict.get k' d.
Proof.
  induction d as [|[k0 v0] d IH]; simpl.
  - reflexivity.
  - destruct (Str.eqb k0 k) eqn:E0; simpl.
    + apply Str_eqb_eq in E0 as ->. by destruct (Str.eqb k k').
    + rewrite IH. destruct (Str.eqb k0 k') eqn:E1; [|done].
      apply Str_eqb_eq in E1 as ->.
      destruct (Str.eqb k k') eqn:E2; [|done].
      apply Str_eqb_eq in E2 as ->. by rewrite Str_eqb_refl in E0.
Qed.

Lemma Dict_set_fresh k v (d : dict) :
  Dict.mem k d = false -> Dict.set k v d = d ++ [(k, v)].
Proof.
  rewrite Dict_mem_false.
  induction d as [|[k0 v0] d IH]; simpl; [done|].
  rewrite not_elem_of_cons. intros [Hne Hd].
  destruct (Str.eqb k0 k) eqn:E.
  - apply Str_eqb_eq in E. congruence.
  - f_equal. by apply IH.
Qed.

(** With one entry per key in [other], [update] makes every key of
    [other] win and keeps the other keys of [d]. *)
Lemma Dict_get_update k (d other : dict) :
  NoDup other.*1 ->
  Dict.get k (Dict.update d other) =
    match Dict.get k other with Some v => Some v | None => Dict.get k d end.
Proof.
  unfold Dict.update. revert d.
  induction other as [|[k0 v0] other IH]; simpl; intros d Hnd; [done|].
  apply NoDup_cons in Hnd as [Hnotin Hnd'].
  rewrite IH by done.
  destruct (Dict.get k other) eqn:Eo.
  - destruct (Str.eqb k0 k) eqn:E; [|done].
    apply Str_eqb_eq in E as ->. apply Dict_get_elem_of in Eo.
    exfalso. apply Hnotin. by apply (list_elem_of_fmap_2 fst) in Eo.
  - rewrite Dict_get_set. by destruct (Str.eqb k0 k).
Qed.

Lemma Dict_get_Permutation k (d d' : dict) :
  NoDup d.*1 -> d ≡ₚ d' -> Dict.get k d = Dict.get k d'.
Proof.
  intros Hnd Hp.
  induction Hp as [|[k0 v0] l l' Hp IH|[k0 v0] [k1 v1] l|l l' l'' H1 IH1 H2 IH2].
  - done.
  - simpl. apply NoDup_cons in Hnd as [_ Hnd]. by rewrite IH.
  - simpl. destruct (Str.eqb k1 k) eqn:E1, (Str.eqb k0 k) eqn:E0; try done.
    apply Str_eqb_eq in E1, E0. subst. simpl in Hnd.
    apply NoDup_cons in Hnd as [Hn _]. exfalso. apply Hn. left.
  - rewrite IH1 by done. apply IH2. by rewrite <- H1.
Qed.

(** ** Resolution of one option *)

Section ResolutionFacts.

Context {CheriConfig Instance : Type}.

Implicit Types (ld : Loader CheriConfig Instance)
               (o f : ConfigOption CheriConfig Instance)
               (config : CheriConfig) (instance : Instance).

Lemma or_else_assoc (a b c : result value) :
  or_else (or_else a b) c = or_else a (or_else b c).
Proof.
  unfold or_else. destruct a as [r|e]; simpl; [|done].
  destruct (is_None r) eqn:E; simpl; [done | by rewrite E].
Qed.

Lemma or_else_found (a b : result value) v :
  a = Ok v -> v <> VNone -> or_else a b = Ok v.
Proof.
  intros -> Hv. unfold or_else; simpl.
  apply is_None_false in Hv. by rewrite Hv.
Qed.

Lemma or_else_None (a b : result value) :
  a = Ok VNone -> or_else a b = b.
Proof. by intros ->. Qed.

(** [_loadOptionImpl] reads the command line layer, then the JSON
    layer. *)
Lemma _loadOptionImpl_layers ld o :
  _loadOptionImpl ld o = or_else (cmdline_layer ld o) (json_layer ld o).
Proof.
  unfold _loadOptionImpl, cmdline_layer, json_layer, or_else, ne_action_default.
  destruct (cls o); simpl.
  - done.
  - destruct (loadFromCommandLine ld o) as [r|e]; simpl; [|done].
    by destruct r.
  - destruct (loadFromCommandLine ld o) as [r|e]; simpl; [|done].
    destruct (is_None r) eqn:E; simpl; [|done].
    destruct (_loadFromJson ld o (fullOptionName o)) as [[r' key]|e]; simpl; [|done].
    by destruct r'.
Qed.

Lemma load_fallback_layers ld o r :
  load_fallback ld o r =
    or_else (Ok r) (or_else (of_fallback ld o cmdline_layer)
                            (of_fallback ld o json_layer)).
Proof.
  unfold load_fallback, of_fallback, or_else at 1; simpl.
  destruct (is_None r) eqn:E.
  - destruct (_fallback_name o) as [fb|]; [|by apply is_None_true in E as ->].
    destruct (options ld !! fb) as [f|]; [|done].
    apply _loadOptionImpl_layers.
  - done.
Qed.

(** The order of the layers in [loadOption]. *)
Lemma loadOption_layers w ld o config instance :
  loadOption w ld o config instance = resolve_own_first w ld o config instance.
Proof.
  unfold loadOption, resolve_own_first, finish.
  rewrite <- or_else_assoc, <- _loadOptionImpl_layers.
  destruct (_loadOptionImpl ld o) as [r|e]; simpl; [|done].
  rewrite load_fallback_layers.
  unfold or_else at 1 3; simpl. by destruct (is_None r).
Qed.

Lemma _loadOptionImpl_with_options ld opts f :
  _loadOptionImpl (with_options ld opts) f = _loadOptionImpl ld f.
Proof. reflexivity. Qed.

Lemma _loadOptionImpl_with_default ld f d :
  _loadOptionImpl ld (with_default f d) = _loadOptionImpl ld f.
Proof. reflexivity. Qed.

End ResolutionFacts.

Section ResolutionClaims.

Context {CheriConfig Instance : Type}.

Implicit Types (ld : Loader CheriConfig Instance)
               (o f : ConfigOption CheriConfig Instance)
               (config : CheriConfig) (instance : Instance).

(** C1. An option that reads the command line and the JSON file and is
    declared with a fallback name: when it has a value of its own, on the
    command line or else in the JSON file, [loadOption] converts and
    returns that value, whatever the loader holds for the fallback option
    on the command line or in the file. The value of the per-target
    option in the JSON file so wins over a command line value of the base
    option. *)
Theorem target_specific_value_wins w ld o config instance fallback_name v :
  cls o = JsonAndCommandLine ->
  _fallback_name o = Some fallback_name ->
  v <> VNone ->
  (loadFromCommandLine ld o = Ok v \/
   (loadFromCommandLine ld o = Ok VNone /\
    exists key, _loadFromJson ld o (fullOptionName o) = Ok (v, key))) ->
  loadOption w ld o config instance = convert_or_exit w o v.
Proof.
  intros Hcls _ Hv Hown.
  assert (_loadOptionImpl ld o = Ok v) as Himpl.
  { rewrite _loadOptionImpl_layers. unfold cmdline_layer, json_layer.
    rewrite Hcls. destruct Hown as [Hc | [Hc [key Hj]]].
    - by apply or_else_found.
    - rewrite (or_else_None _ _ Hc), Hj. reflexivity. }
  unfold loadOption. rewrite Himpl; simpl.
  unfold load_fallback. apply is_None_false in Hv. rewrite Hv. cbn.
  by rewrite Hv.
Qed.

(** C2, as the code has it. [loadOption] consults the sources in this
    order, the first one that holds a value other than [None] winning: the
    command line value of the option, the JSON value of the option, the
    command line value of the fallback option, the JSON value of the
    fallback option, the default. The JSON value of the option comes
    before the fallback lookup. *)
Theorem own_json_before_fallback w ld o config instance :
  loadOption w ld o config instance =
    finish w o config instance
      (or_else (cmdline_layer ld o)
         (or_else (json_layer ld o)
            (or_else (of_fallback ld o cmdline_layer)
                     (of_fallback ld o json_layer)))).
Proof.
  unfold loadOption, finish.
  rewrite <- or_else_assoc, <- _loadOptionImpl_layers.
  destruct (_loadOptionImpl ld o) as [own|e]; simpl; [|done].
  rewrite load_fallback_layers.
  unfold or_else at 1 3; simpl.
  by destruct (is_None own) eqn:Hown.
Qed.

(** C3. The fallback lookup stops at the command line and JSON layers of
    the fallback option. For an option [o] whose fallback [f] is
    registered: replacing the default of [f] never changes what [o]
    resolves to, and when [o] and [f] are both unset [o] resolves to its
    own default. An option without a fallback name resolves from its own
    command line layer, its own JSON layer and its own default, whatever
    the registry holds. *)
Theorem fallback_stops_before_default w ld o config instance :
  (forall fallback_name f,
      _fallback_name o = Some fallback_name ->
      options ld !! fallback_name = Some f ->
      (forall d,
          loadOption w
            (with_options ld (<[fallback_name := with_default f d]> (options ld)))
            o config instance
          = loadOption w ld o config instance) /\
      (unset ld o -> unset ld f ->
       loadOption w ld o config instance =
         convert_or_exit w o (_getDefaultValue o config instance))) /\
  (_fallback_name o = None ->
   loadOption w ld o config instance =
     finish w o config instance
       (or_else (cmdline_layer ld o) (json_layer ld o)) /\
   forall opts,
     loadOption w (with_options ld opts) o config instance =
       loadOption w ld o config instance).
Proof.
  split.
  - intros fb f Hfb Hf. split.
    + intros d. unfold loadOption.
      rewrite _loadOptionImpl_with_options.
      destruct (_loadOptionImpl ld o) as [r|e]; simpl; [|done].
      unfold load_fallback. rewrite Hfb. simpl.
      rewrite lookup_insert_eq, Hf.
      by rewrite _loadOptionImpl_with_options, _loadOptionImpl_with_default.
    + intros [Hc Hj] [Hfc Hfj]. rewrite loadOption_layers.
      unfold resolve_own_first, of_fallback. rewrite Hfb, Hf.
      rewrite Hc, Hj, Hfc, Hfj. reflexivity.
  - intros Hfb. split.
    + rewrite loadOption_layers. unfold resolve_own_first, of_fallback.
      rewrite Hfb. unfold finish.
      destruct (cmdline_layer ld o) as [r|e]; [|done].
      unfold or_else; simpl. destruct (is_None r) eqn:E; simpl; [|by rewrite E].
      destruct (json_layer ld o) as [r'|e]; simpl; [|done].
      destruct (is_None r') eqn:E'; cbn; [done | by rewrite E'].
    + intros opts. unfold loadOption.
      rewrite _loadOptionImpl_with_options.
      destruct (_loadOptionImpl ld o) as [r|e]; simpl; [|done].
      unfold load_fallback. by rewrite Hfb.
Qed.

End ResolutionClaims.

(** The per-target option of the test suite, set to [false] in the JSON
    file while the base option is set on the command line. *)
Lemma target_specific_value_wins_witness :
  loadOption Demo.world
    (Demo.loaded ["--qtbase/build-tests"]
                 [("qtbase-mips/build-tests", VBool false)])
    Demo.qtbase_mips_build_tests tt tt
  = convert_or_exit Demo.world Demo.qtbase_mips_build_tests (VBool false).
Proof.
  apply (target_specific_value_wins _ _ _ _ _ "qtbase/build-tests").
  - reflexivity.
  - reflexivity.
  - discriminate.
  - right. split; [reflexivity|]. exists (Some "qtbase-mips/build-tests").
    reflexivity.
Defined.

(** C2 fails as stated: with the order of the specification the command
    line value of the base option would come before the JSON value of
    the per-target option, and the per-target option would resolve to
    [true]; [loadOption] resolves it to [false]. *)
Lemma specified_order_counterexample :
  let ld := Demo.loaded ["--qtbase/build-tests"]
                        [("qtbase-mips/build-tests", VBool false)] in
  resolve_as_specified Demo.world ld Demo.qtbase_mips_build_tests tt tt
    = Ok (VBool true) /\
  loadOption Demo.world ld Demo.qtbase_mips_build_tests tt tt
    = Ok (VBool false) /\
  loadOption Demo.world ld Demo.qtbase_mips_build_tests tt tt
    <> resolve_as_specified Demo.world ld Demo.qtbase_mips_build_tests tt tt.
Proof. split_and!; [reflexivity | reflexivity | discriminate]. Qed.

(** The per-target option and its base option both unset. *)
Lemma fallback_stops_before_default_witness :
  loadOption Demo.world (Demo.loaded [] []) Demo.qtbase_mips_build_tests tt tt
  = convert_or_exit Demo.world Demo.qtbase_mips_build_tests
      (_getDefaultValue Demo.qtbase_mips_build_tests tt tt).
Proof.
  destruct (fallback_stops_before_default Demo.world (Demo.loaded [] [])
              Demo.qtbase_mips_build_tests tt tt) as [Hfallback _].
  destruct (Hfallback "qtbase/build-tests" Demo.qtbase_build_tests
              eq_refl eq_refl) as [_ Hunset].
  apply Hunset; split; reflexivity.
Defined.

(** ** Looking a key up in the JSON document *)

Lemma split_no_sep sep s :
  Str.contains sep s = false -> Str.split sep s = [s].
Proof.
  induction s as [|c s IH]; simpl; [done|].
  destruct (Str.char_eqb c sep) eqn:E; simpl; [discriminate|].
  intros H. by rewrite IH.
Qed.

Lemma split_at_sep sep a b :
  Str.contains sep a = false ->
  Str.split sep (a +:+ String sep b) = a :: Str.split sep b.
Proof.
  induction a as [|c a IH]; simpl.
  - intros _. unfold Str.char_eqb. by rewrite bool_decide_eq_true_2.
  - destruct (Str.char_eqb c sep) eqn:E; simpl; [discriminate|].
    intros H. by rewrite IH.
Qed.

(** C10. [_lookupKeyInJson] returns the value of the flat key whenever
    the document has that exact key at its top level. For a name
    [group/key] whose nested form [{group: {key: ...}}] is in the
    document, the lookup returns the value of the flat key when it is
    present as well, and the nested value only when the flat key is
    absent. *)
Theorem flat_key_before_nested (js : dict) (fullName : string) :
  (forall v, Dict.get fullName js = Some v ->
             _lookupKeyInJson js fullName = Ok v) /\
  (forall group key sub,
      fullName = group +:+ "/" +:+ key ->
      Str.contains "/" group = false ->
      Str.contains "/" key = false ->
      Dict.get group js = Some (VDict sub) ->
      _lookupKeyInJson js fullName =
        Ok (match Dict.get fullName js with
            | Some flat => flat
            | None => Dict.get_or_None key sub
            end)).
Proof.
  split.
  - intros v Hv. unfold _lookupKeyInJson. by rewrite Hv.
  - intros group key sub -> Hg Hk Hnested. unfold _lookupKeyInJson.
    destruct (Dict.get (group +:+ "/" +:+ key) js) as [flat|]; [done|].
    change ("/" +:+ key) with (String "/" key).
    rewrite (split_at_sep _ _ _ Hg), (split_no_sep _ _ Hk). simpl.
    rewrite Hnested. reflexivity.
Qed.

(** A document with [llvm/build-type] both as a flat key and nested. *)
Lemma flat_key_before_nested_witness :
  _lookupKeyInJson
    [("llvm", VDict [("build-type", VStr "Debug")]);
     ("llvm/build-type", VStr "Release")]
    "llvm/build-type"
  = Ok (VStr "Release").
Proof.
  destruct (flat_key_before_nested
              [("llvm", VDict [("build-type", VStr "Debug")]);
               ("llvm/build-type", VStr "Release")]
              "llvm/build-type") as [_ Hnested].
  apply (Hnested "llvm" "build-type" [("build-type", VStr "Debug")]);
    reflexivity.
Defined.

(** ** Duplicate keys *)

Lemma decode_RArr l : decode (RArr l) = VList <$> decode_each l.
Proof. reflexivity. Qed.

Lemma decode_RObj ps :
  decode (RObj ps) =
    pairs ← decode_pairs ps; VDict <$> dict_raise_on_duplicates pairs.
Proof. reflexivity. Qed.

Lemma decode_each_cons a l :
  decode_each (a :: l) = a' ← decode a; r ← decode_each l; Ok (a' :: r).
Proof. reflexivity. Qed.

Lemma decode_pairs_cons k a ps :
  decode_pairs ((k, a) :: ps) =
    a' ← decode a; r ← decode_pairs ps; Ok ((k, a') :: r).
Proof. reflexivity. Qed.

Lemma decode_each_Raise l e :
  decode_each l = Raise e -> exists a, a ∈ l /\ decode a = Raise e.
Proof.
  induction l as [|a l IH]; [discriminate|].
  rewrite decode_each_cons. destruct (decode a) as [a'|e'] eqn:Ea; cbn.
  - destruct (decode_each l) as [r|e'']; cbn; [discriminate|].
    intros [= ->]. destruct IH as (b & Hb & Hd); [done|].
    exists b. split; [by right | done].
  - intros [= ->]. exists a. split; [left | done].
Qed.

Lemma decode_each_Ok l vs :
  decode_each l = Ok vs -> forall a, a ∈ l -> exists v, decode a = Ok v.
Proof.
  revert vs. induction l as [|a l IH]; intros vs.
  - intros _ b Hb. by apply elem_of_nil in Hb.
  - rewrite decode_each_cons. destruct (decode a) as [a'|] eqn:Ea; cbn; [|discriminate].
    destruct (decode_each l) as [r|] eqn:Er; cbn; [|discriminate].
    intros _ b [->|Hb]%elem_of_cons; [eauto | by eapply IH].
Qed.

Lemma decode_pairs_Raise ps e :
  decode_pairs ps = Raise e -> exists k a, (k, a) ∈ ps /\ decode a = Raise e.
Proof.
  induction ps as [|[k a] ps IH]; [discriminate|].
  rewrite decode_pairs_cons. destruct (decode a) as [a'|e'] eqn:Ea; cbn.
  - destruct (decode_pairs ps) as [r|e'']; cbn; [discriminate|].
    intros [= ->]. destruct IH as (k' & b & Hb & Hd); [done|].
    exists k', b. split; [by right | done].
  - intros [= ->]. exists k, a. split; [left | done].
Qed.

Lemma decode_pairs_Ok ps pairs :
  decode_pairs ps = Ok pairs ->
  pairs.*1 = ps.*1 /\ forall k a, (k, a) ∈ ps -> exists v, decode a = Ok v.
Proof.
  revert pairs. induction ps as [|[k a] ps IH]; intros pairs.
  - intros [= <-]. split; [done|]. intros k a Hb. by apply elem_of_nil in Hb.
  - rewrite decode_pairs_cons. destruct (decode a) as [a'|] eqn:Ea; cbn; [|discriminate].
    destruct (decode_pairs ps) as [r|] eqn:Er; cbn; [|discriminate].
    intros [= <-]. destruct (IH r eq_refl) as [Hk Hall]. split.
    + by rewrite !fmap_cons, Hk.
    + intros k' b [[= -> ->]|Hb]%elem_of_cons; [eauto | by eapply Hall].
Qed.

(** [dict_raise_on_duplicates] accepts exactly the lists whose keys are
    all different, and returns the pairs as they are; otherwise it names
    the first key that comes a second time. *)
Lemma raise_on_duplicates_Ok d pairs d' :
  raise_on_duplicates d pairs = Ok d' ->
  d' = d ++ pairs /\ (NoDup d.*1 -> NoDup d'.*1).
Proof.
  revert d. induction pairs as [|[k v] pairs IH]; simpl; intros d.
  - intros [= <-]. by rewrite app_nil_r.
  - destruct (Dict.mem k d) eqn:E; [discriminate|]. intros H.
    apply IH in H as [-> Hnd]. rewrite (Dict_set_fresh _ _ _ E) in *.
    split; [by rewrite <- app_assoc|]. intros Hd. apply Hnd.
    rewrite fmap_app. apply NoDup_app. split_and!; [done| |].
    + intros x Hx [->|[]%elem_of_nil]%elem_of_cons.
      by apply Dict_mem_false in E.
    + apply NoDup_singleton.
Qed.

Lemma raise_on_duplicates_Raise d pairs e :
  raise_on_duplicates d pairs = Raise e ->
  exists k v ps1 ps2, e = SyntaxError k /\ pairs = ps1 ++ (k, v) :: ps2 /\
                      k ∈ (d ++ ps1).*1.
Proof.
  revert d. induction pairs as [|[k v] pairs IH]; simpl; intros d; [discriminate|].
  destruct (Dict.mem k d) eqn:E.
  - intros [= <-]. exists k, v, [], pairs. split_and!; [done..|].
    rewrite app_nil_r. unfold Dict.mem in E.
    destruct (Dict.get k d) as [x|] eqn:Eg; [|discriminate].
    apply Dict_get_elem_of in Eg. by apply (list_elem_of_fmap_2 fst) in Eg.
  - intros H. apply IH in H as (k' & v' & ps1 & ps2 & -> & -> & Hin).
    exists k', v', ((k, v) :: ps1), ps2. split_and!; [done..|].
    by rewrite (Dict_set_fresh _ _ _ E), <- app_assoc in Hin.
Qed.

Lemma dict_raise_on_duplicates_first ps1 k v ps2 :
  NoDup ps1.*1 -> k ∈ ps1.*1 ->
  dict_raise_on_duplicates (ps1 ++ (k, v) :: ps2) = Raise (SyntaxError k).
Proof.
  unfold dict_raise_on_duplicates. intros Hnd Hk.
  assert (forall d, NoDup (d ++ ps1).*1 -> k ∈ (d ++ ps1).*1 ->
            raise_on_duplicates d (ps1 ++ (k, v) :: ps2) = Raise (SyntaxError k))
    as Hgen; [|by apply Hgen].
  clear Hnd Hk. induction ps1 as [|[k1 v1] ps1 IH]; simpl; intros d Hnd Hk.
  - rewrite app_nil_r in Hk. destruct (Dict.mem k d) eqn:E; [done|].
    by apply Dict_mem_false in E.
  - destruct (Dict.mem k1 d) eqn:E.
    + exfalso. rewrite fmap_app in Hnd. apply NoDup_app in Hnd as (_ & Hdisj & _).
      unfold Dict.mem in E. destruct (Dict.get k1 d) as [x|] eqn:Eg; [|discriminate].
      apply Dict_get_elem_of, (list_elem_of_fmap_2 fst) in Eg.
      apply (Hdisj _ Eg). left.
    + rewrite (Dict_set_fresh _ _ _ E). apply IH; by rewrite <- app_assoc.
Qed.

Lemma elem_of_fst_split {A B} (k : A) (l : list (A * B)) :
  k ∈ l.*1 -> exists l1 x l2, l = l1 ++ (k, x) :: l2.
Proof.
  intros ([k' x] & -> & Hin)%list_elem_of_fmap.
  apply list_elem_of_split in Hin as (l1 & l2 & ->). by exists l1, x, l2.
Qed.

Lemma twice_not_NoDup {A} (k : A) (l1 l2 l3 : list A) :
  ~ NoDup (l1 ++ k :: l2 ++ k :: l3).
Proof.
  intros (_ & _ & [Hk _]%NoDup_cons)%NoDup_app.
  apply Hk, elem_of_app. right. left.
Qed.

(** An error of [decode] is the [SyntaxError] of the pairs hook, for a
    key that occurs twice in one object of the text. *)
Lemma decode_Raise j e :
  decode j = Raise e -> exists k, e = SyntaxError k /\ has_dup_key j k.
Proof.
  revert e. induction j as [| | | |l IH|ps IH] using raw_json_rect';
    try discriminate; intros e.
  - rewrite decode_RArr.
    destruct (decode_each l) as [vs|e'] eqn:El; [discriminate|].
    intros [= ->]. apply decode_each_Raise in El as (a & Ha & Hd).
    rewrite Forall_forall in IH. destruct (IH a Ha e Hd) as (k & -> & Hk).
    exists k. split; [done|]. by eapply dup_in_array.
  - rewrite decode_RObj.
    destruct (decode_pairs ps) as [pairs|e'] eqn:Ep; cbn.
    + destruct (dict_raise_on_duplicates pairs) as [d|e'] eqn:Ed; [discriminate|].
      intros [= ->]. apply decode_pairs_Ok in Ep as [Hkeys _].
      apply raise_on_duplicates_Raise in Ed as (k & v & p1 & p2 & -> & -> & Hin).
      exists k. split; [done|]. simpl in Hin.
      rewrite fmap_app, fmap_cons in Hkeys. symmetry in Hkeys.
      apply fmap_app_inv in Hkeys as (q1 & q2' & Hq1 & Hq2 & ->).
      symmetry in Hq2. apply fmap_cons_inv in Hq2 as ([k' a] & q2 & Hk & _ & ->).
      simpl in Hk. subst k'. rewrite Hq1 in Hin.
      apply elem_of_fst_split in Hin as (r1 & b & r2 & ->).
      rewrite <- app_assoc. apply dup_here.
    + intros [= ->]. apply decode_pairs_Raise in Ep as (k' & a & Ha & Hd).
      rewrite Forall_forall in IH. destruct (IH (k', a) Ha e Hd) as (k & -> & Hk).
      exists k. split; [done|]. by eapply dup_in_object.
Qed.

(** A text that decodes holds no object with a repeated key. *)
Lemma decode_Ok j v k : decode j = Ok v -> ~ has_dup_key j k.
Proof.
  intros Hd Hdup. revert v Hd.
  induction Hdup as [ps1 ps2 ps3 k a b|l j k Hin _ IH|ps k' j k Hin _ IH];
    intros v.
  - rewrite decode_RObj. intros (pairs & Hp & Hr)%bind_Ok.
    apply fmap_Ok in Hr as (d & Hr & _).
    apply decode_pairs_Ok in Hp as [Hkeys _].
    apply raise_on_duplicates_Ok in Hr as [-> Hnd]. simpl in Hnd.
    specialize (Hnd (NoDup_nil_2)). rewrite Hkeys in Hnd.
    rewrite fmap_app, fmap_cons, fmap_app, fmap_cons in Hnd.
    by apply twice_not_NoDup in Hnd.
  - rewrite decode_RArr. intros (vs & Hvs & _)%fmap_Ok.
    destruct (decode_each_Ok _ _ Hvs j Hin) as [v' Hv']. by eapply IH.
  - rewrite decode_RObj. intros (pairs & Hp & _)%bind_Ok.
    apply decode_pairs_Ok in Hp as [_ Hall].
    destruct (Hall k' j Hin) as [v' Hv']. by eapply IH.
Qed.

(** A decoded object has one entry per key. *)
Lemma decode_dict_NoDup j d : decode j = Ok (VDict d) -> NoDup d.*1.
Proof.
  destruct j; try discriminate.
  - rewrite decode_RArr. by intros (? & _ & [=])%fmap_Ok.
  - rewrite decode_RObj. intros (pairs & _ & Hr)%bind_Ok.
    apply fmap_Ok in Hr as (d' & Hr & [= ->]).
    apply raise_on_duplicates_Ok in Hr as [_ Hnd]. apply Hnd, NoDup_nil_2.
Qed.

(** In a context that is not interactive, [__load_json_with_includes]
    raises what [__load_json_with_comments] raised for the file. *)
Lemma load_json_with_includes_Raise depth w config_path con e :
  load_json_with_comments w config_path = Raise e ->
  stdin_isatty w = false ->
  exists con', load_json_with_includes (S depth) w config_path con
               = (Raise e, con').
Proof.
  intros He Htty. simpl. unfold load_or_ask. rewrite He, Htty. simpl.
  destruct (is_Exception e); eauto.
Qed.

(** C5. A key that comes twice in one object of the configuration file
    is a [SyntaxError] that names a repeated key. The pairs hook
    [dict_raise_on_duplicates] names the first key that comes a second
    time; [__load_json_with_comments] raises the error for every file
    whose text holds an object, at any depth, with a repeated key, and so
    does [__load_json_with_includes] when standard input is not a
    terminal. No value is returned, so neither value of the key is
    kept. *)
Theorem duplicate_key_is_an_error :
  (forall ps1 k v ps2,
      NoDup ps1.*1 -> k ∈ ps1.*1 ->
      dict_raise_on_duplicates (ps1 ++ (k, v) :: ps2) = Raise (SyntaxError k)) /\
  (forall w config_path lines j,
      readlines w config_path = Ok lines ->
      json_decode w
        (String.concat EmptyString
           (filter (fun l => is_comment_line l = false) lines)) = Some j ->
      (exists k, has_dup_key j k) ->
      exists k,
        has_dup_key j k /\
        load_json_with_comments w config_path = Raise (SyntaxError k) /\
        (stdin_isatty w = false ->
         forall depth con, exists con',
           load_json_with_includes (S depth) w config_path con
           = (Raise (SyntaxError k), con'))).
Proof.
  split; [apply dict_raise_on_duplicates_first|].
  intros w config_path lines j Hlines Hjson [k0 Hdup].
  assert (load_json_with_comments w config_path = decode j) as Hload.
  { unfold load_json_with_comments. rewrite Hlines. cbn. by rewrite Hjson. }
  destruct (decode j) as [v|e] eqn:Hd.
  - by apply (decode_Ok _ _ k0) in Hd.
  - apply decode_Raise in Hd as (k & -> & Hk). exists k. split_and!; [done..|].
    intros Htty depth con. by apply load_json_with_includes_Raise.
Qed.

(** The file of the test suite with two [#include] keys. *)
Lemma duplicate_key_is_an_error_witness :
  load_json_with_comments (Demo.file_world false) (Demo.cfg "duplicate.json")
    = Raise (SyntaxError "#include") /\
  fst (load_json_with_includes 5 (Demo.file_world false)
         (Demo.cfg "duplicate.json") (Demo.console []))
    = Raise (SyntaxError "#include").
Proof.
  destruct duplicate_key_is_an_error as [_ Hfile].
  destruct (Hfile (Demo.file_world false) (Demo.cfg "duplicate.json")
              [Demo.duplicated]
              (RObj [("#include", RStr "128-common.json"); ("foo", RStr "bar");
                     ("#include", RStr "256-common.json")])
              eq_refl eq_refl) as (k & Hk & Hload & Hincl).
  - exists "#include".
    apply (dup_here [] [("foo", RStr "bar")] [] "#include").
  - assert (k = "#include") as ->.
    { assert (load_json_with_comments (Demo.file_world false)
                (Demo.cfg "duplicate.json") = Raise (SyntaxError "#include"))
        as Hrun by reflexivity.
      rewrite Hrun in Hload. by injection Hload. }
    split; [exact Hload|].
    destruct (Hincl eq_refl 4%nat (Demo.console [])) as [con' ->]. reflexivity.
Defined.

(** ** Included files *)

Lemma load_json_with_comments_NoDup w config_path d :
  load_json_with_comments w config_path = Ok (VDict d) -> NoDup d.*1.
Proof.
  unfold load_json_with_comments.
  intros (lines & _ & H)%bind_Ok.
  destruct (json_decode w _) as [j|]; [|discriminate].
  by apply decode_dict_NoDup in H.
Qed.

Lemma include_value_truthy doc inc :
  Dict.get "#include" doc = Some (VStr inc) -> inc <> EmptyString ->
  Dict.get_or_None "#include" doc = VStr inc /\ Py.bool_ (VStr inc) = true.
Proof.
  intros Hget Hinc. unfold Dict.get_or_None. rewrite Hget. split; [done|].
  simpl. apply negb_true_iff. by apply Str_eqb_neq.
Qed.

(** The step of [__load_json_with_includes] for a file that loads and
    names a file to include. *)
Lemma load_json_with_includes_step depth w config_path con doc inc :
  load_json_with_comments w config_path = Ok (VDict doc) ->
  Dict.get "#include" doc = Some (VStr inc) -> inc <> EmptyString ->
  load_json_with_includes (S depth) w config_path con =
    match load_json_with_includes depth w
            (Pathlib.div (Pathlib.parent config_path) inc) con with
    | (Ok base_json, con') => (Ok (Dict.update base_json doc), con')
    | (Raise e, con') => (Raise e, con')
    end.
Proof.
  intros Hload Hget Hinc. simpl. unfold load_or_ask. rewrite Hload.
  destruct (include_value_truthy _ _ Hget Hinc) as [-> ->]. reflexivity.
Qed.

(** C4. A configuration file whose document names a file under
    [#include]: the path is taken relative to the directory of the
    including file ([config_path.parent / include_value]), the included
    file is loaded by the same function, with its own includes, and the
    result is the included document updated with every key of the
    including one. For every key the value of the including document
    wins, and the included value shows only for the keys the including
    document lacks; the outcome is the same for the pairs of the including
    document in any other order. *)
Theorem include_is_overlaid depth w config_path con doc inc base con' :
  load_json_with_comments w config_path = Ok (VDict doc) ->
  Dict.get "#include" doc = Some (VStr inc) ->
  inc <> EmptyString ->
  load_json_with_includes depth w
    (Pathlib.div (Pathlib.parent config_path) inc) con = (Ok base, con') ->
  exists merged,
    load_json_with_includes (S depth) w config_path con = (Ok merged, con') /\
    (forall k, Dict.get k merged =
               match Dict.get k doc with
               | Some v => Some v
               | None => Dict.get k base
               end) /\
    (forall doc', doc ≡ₚ doc' ->
       forall k, Dict.get k (Dict.update base doc') = Dict.get k merged).
Proof.
  intros Hload Hget Hinc Hbase.
  pose proof (load_json_with_comments_NoDup _ _ _ Hload) as Hnd.
  exists (Dict.update base doc). split_and!.
  - by rewrite (load_json_with_includes_step _ _ _ _ _ _ Hload Hget Hinc), Hbase.
  - intros k. by apply Dict_get_update.
  - intros doc' Hperm k.
    assert (NoDup doc'.*1) as Hnd' by by rewrite <- Hperm.
    rewrite !Dict_get_update by done.
    by rewrite (Dict_get_Permutation k _ _ Hnd Hperm).
Qed.

(** The configuration file of the test suite that sets [cheri-bits] to
    256 and includes a file that sets it to 128. *)
Lemma include_is_overlaid_witness :
  exists merged,
    load_json_with_includes 2 (Demo.file_world false) (Demo.cfg "config.json")
      (Demo.console []) = (Ok merged, Demo.console []) /\
    Dict.get "cheri-bits" merged = Some (VInt 256).
Proof.
  destruct (include_is_overlaid 1 (Demo.file_world false)
              (Demo.cfg "config.json") (Demo.console [])
              [("cheri-bits", VInt 256); ("#include", VStr "128-common.json")]
              "128-common.json" [("cheri-bits", VInt 128)] (Demo.console []))
    as (merged & Hrun & Hkeys & _).
  - reflexivity.
  - reflexivity.
  - discriminate.
  - reflexivity.
  - exists merged. split; [exact Hrun|]. by rewrite Hkeys.
Defined.




(** ** The command line *)

Section ParseFacts.

Variable p : list Action.

Lemma find_action_elem s b :
  Argparse.find_action p s = Some b -> In b p /\ s ∈ option_strings b.
Proof.
  unfold Argparse.find_action. intros [Hin Hs]%find_some.
  split; [done|]. by apply bool_decide_eq_true in Hs.
Qed.




End ParseFacts.

Section BooleanFlags.

Context {CheriConfig Instance : Type}.

Implicit Types (ld : Loader CheriConfig Instance)
               (o : ConfigOption CheriConfig Instance).


Lemma startswith_dash s : Str.startswith (String "-" s) "-" = true.
Proof. by destruct s. Qed.



(** *** The flags [addBoolOption] registers *)

Lemma find_action_app p l s :
  Argparse.find_action (p ++ l) s =
    match Argparse.find_action p s with
    | Some b => Some b
    | None => Argparse.find_action l s
    end.
Proof.
  unfold Argparse.find_action. induction p as [|a p IH]; simpl; [done|].
  by destruct (bool_decide (s ∈ option_strings a)).
Qed.

Lemma add_argument_Ok p a p' :
  Argparse.add_argument p a = Ok p' ->
  p' = p ++ [a] /\ forall s, s ∈ option_strings a -> Argparse.find_action p s = None.
Proof.
  unfold Argparse.add_argument.
  destruct (List.find _ (option_strings a)) as [s|] eqn:E; [discriminate|].
  intros [= <-]. split; [done|]. intros s Hs%list_elem_of_In.
  pose proof (find_none _ _ E s Hs) as Hn. simpl in Hn.
  apply bool_decide_eq_false in Hn.
  destruct (Argparse.find_action p s); [|done]. destruct Hn. by eexists.
Qed.

Lemma infer_dest_long nm rest :
  Argparse.infer_dest (("--" +:+ nm) :: rest) = Argparse.infer_dest ["--" +:+ nm].
Proof.
  unfold Argparse.infer_dest.
  change ("--" +:+ nm) with (String "-" (String "-" nm)).
  assert (Str.startswith (String "-" (String "-" nm)) "--" = true) as Hs.
  { simpl. by destruct nm. }
  rewrite !filter_cons_True by done. reflexivity.
Qed.

(** [addBoolOption] on a loader that reads the command line, for a name
    whose [dest] no action of the parser writes to yet: the option is in
    the registry and its two flags are in the parser. *)
Lemma addBoolOption_registers ld nm sn group fb o ld' :
  option_cls ld <> DefaultValueOnly ->
  addBoolOption ld nm sn false group fb = Ok (o, ld') ->
  (forall b, In b (parser ld) -> dest b <> Argparse.infer_dest ["--" +:+ nm]) ->
  exists a neg,
    bool_flags (parser ld') o a neg /\
    options ld' !! nm = Some o /\
    name o = nm /\ cls o = option_cls ld /\ valueType o = TBool /\
    default_ o = Literal (VBool false) /\ _fallback_name o = fb.
Proof.
  intros Hcls Hadd Hfresh. unfold addBoolOption, addOption in Hadd.
  cbn in Hadd.
  assert (exists po, CommandLineConfigOption_init (option_cls ld) (parser ld) nm sn
            (Literal (VBool false)) TBool group fb (Some StoreTrue) None = Ok po /\
            (_ ← assert (negb (bool_decide (is_Some (options ld !! nm))));
             Ok (po.1, @mkLoader CheriConfig Instance (option_cls ld)
                    (<[nm := po.1]> (options ld)) po.2 (_parsedArgs ld) (_JSON ld)))
            = Ok (o, ld')) as ([o' p'] & Hinit & Hrest).
  { destruct (option_cls ld); [done| |].
    - apply bind_Ok in Hadd as ([o' p'] & Hinit & Hrest). exists (o', p'). by split.
    - apply bind_Ok in Hadd as ([o' p'] & Hinit & Hrest). exists (o', p'). by split. }
  apply bind_Ok in Hrest as ([] & _ & [= <- <-]). simpl.
  unfold CommandLineConfigOption_init in Hinit. cbn in Hinit.
  apply bind_Ok in Hinit as ([] & _ & Hinit).
  apply bind_Ok in Hinit as (p1 & Hp1 & Hinit).
  apply bind_Ok in Hinit as (p2 & Hp2 & [= <- <-]).
  apply add_argument_Ok in Hp1 as [-> Hnew1].
  apply add_argument_Ok in Hp2 as [-> Hnew2].
  set (strings := match has_shortname sn with
                  | Some sn0 => ["--" +:+ nm; "-" +:+ sn0]
                  | None => ["--" +:+ nm]
                  end) in *.
  assert ("--" +:+ nm ∈ strings) as Hin.
  { unfold strings. destruct (has_shortname sn); left. }
  assert (Argparse.infer_dest strings = Argparse.infer_dest ["--" +:+ nm]) as Hdest.
  { unfold strings. destruct (has_shortname sn); [apply infer_dest_long | done]. }
  match goal with
  | H : context [Argparse.find_action (_ ++ [?a0]) _] |- _ => set (a := a0) in *
  end.
  match goal with
  | |- context [(_ ++ [a]) ++ [?n0]] => set (neg := n0) in *
  end.
  exists a, neg. split_and!; try reflexivity; [|by rewrite lookup_insert_eq].
  assert (forall s, s ∈ option_strings a -> Argparse.find_action [a] s = Some a)
    as Hone.
  { intros s Hs. unfold Argparse.find_action. simpl.
    by rewrite bool_decide_eq_true_2. }
  split; try reflexivity.
  - cbn [name]. rewrite !find_action_app, (Hnew1 _ Hin). by rewrite (Hone _ Hin).
  - cbn [name].
    assert ("--" +:+ negatedName nm ∈ option_strings neg) as Hn by left.
    rewrite find_action_app, (Hnew2 _ Hn).
    unfold Argparse.find_action. simpl. by rewrite bool_decide_eq_true_2.
  - intros s b [Hb _]%find_action_elem Hd.
    apply in_app_or in Hb as [Hb|[<-|[]]]; [|by right].
    apply in_app_or in Hb as [Hb|[<-|[]]]; [|by left].
    exfalso. apply (Hfresh b Hb). by rewrite Hd.
Qed.

(** The flags of an option stay what they are when actions for other
    [dest]s are added to the parser. *)
Lemma bool_flags_later p l o a neg :
  bool_flags p o a neg ->
  (forall b, In b l -> dest b <> dest a) ->
  bool_flags (p ++ l) o a neg.
Proof.
  intros [Ha Hk Hpos Hnk Hnd Hneg Honly] Hl.
  split; try done.
  - by rewrite find_action_app, Hpos.
  - by rewrite find_action_app, Hneg.
  - intros s b Hf Hd. rewrite find_action_app in Hf.
    destruct (Argparse.find_action p s) as [b'|] eqn:Ep.
    + injection Hf as ->. by eapply Honly.
    + apply find_action_elem in Hf as [Hb _]. by destruct (Hl b Hb).
Qed.


End BooleanFlags.



(** ** Invalid values *)

Section InvalidValues.

Context {CheriConfig Instance : Type}.

Implicit Types (ld : Loader CheriConfig Instance)
               (o : ConfigOption CheriConfig Instance).

Lemma loadOption_found w ld o config instance v :
  _loadOptionImpl ld o = Ok v -> v <> VNone ->
  loadOption w ld o config instance = convert_or_exit w o v.
Proof.
  intros Himpl Hv%is_None_false. unfold loadOption, load_fallback.
  rewrite Himpl. cbn. rewrite Hv. cbn. by rewrite Hv.
Qed.


End InvalidValues.



(** ** Coercing a coerced value *)

Lemma enum_call_VList e l : enum_call e (VList l) = VList <$> enum_each e l.
Proof. reflexivity. Qed.

Lemma enum_each_cons e a l :
  enum_each e (a :: l) = a' ← enum_call e a; r ← enum_each e l; Ok (a' :: r).
Proof. reflexivity. Qed.

(** [_EnumArgparseType.__call__] returns its own results as they are. *)
Lemma enum_call_idem e raw : forall v,
  enum_call e raw = Ok v -> enum_call e v = Ok v.
Proof.
  induction raw as [| | |s|l IH| | |m] using value_list_rect; intros v;
    try discriminate.
  - simpl. case_bool_decide as Hin; [|discriminate].
    intros [= <-]. simpl. by rewrite bool_decide_eq_true_2.
  - rewrite enum_call_VList. intros (vs & Hvs & ->)%fmap_Ok.
    rewrite enum_call_VList.
    assert (enum_each e vs = Ok vs) as ->; [|done].
    revert vs Hvs. induction IH as [|a l Ha _ IHl]; intros vs.
    + by intros [= <-].
    + rewrite enum_each_cons.
      intros (a' & Ha' & (r & Hr & [= <-])%bind_Ok)%bind_Ok.
      rewrite enum_each_cons, (Ha _ Ha'). cbn. by rewrite (IHl _ Hr).
  - simpl. case_bool_decide as Hc; [|discriminate].
    intros [= <-]. simpl. by rewrite bool_decide_eq_true_2.
Qed.

(** *** Paths *)

Lemma split_elem_no_sep sep s x :
  x ∈ Str.split sep s -> Str.contains sep x = false.
Proof.
  revert x. induction s as [|c s IH]; simpl; intros x.
  - by intros ->%list_elem_of_singleton.
  - destruct (Str.char_eqb c sep) eqn:E.
    + intros [->|Hx]%elem_of_cons; [done | by apply IH].
    + destruct (Str.split sep s) as [|w ws] eqn:Es.
      * intros ->%list_elem_of_singleton. simpl. by rewrite E.
      * intros [->|Hx]%elem_of_cons.
        -- simpl. rewrite E. apply IH. left.
        -- apply IH. by right.
Qed.

Lemma components_ok rel : Forall component_ok (Pathlib.components rel).
Proof.
  apply Forall_forall. intros c [[H1 H2] Hin]%list_elem_of_filter.
  split_and!; [done..|]. by eapply split_elem_no_sep.
Qed.

Lemma of_str_normal s : normal (Pathlib.of_str s).
Proof.
  unfold Pathlib.of_str, Pathlib.splitroot, normal.
  destruct (Str.startswith s "/").
  - destruct (_ =? _)%nat; simpl; (split; [tauto | apply components_ok]).
  - simpl. split; [tauto | apply components_ok].
Qed.

Lemma of_str_absolute s :
  Str.startswith s "/" = true -> Pathlib.is_absolute (Pathlib.of_str s) = true.
Proof.
  intros Hs. unfold Pathlib.of_str, Pathlib.splitroot. rewrite Hs.
  by destruct (_ =? _)%nat.
Qed.

Lemma absolute_normal cwd p :
  Str.startswith cwd "/" = true -> normal p ->
  normal (Pathlib.absolute cwd p) /\
  Pathlib.is_absolute (Pathlib.absolute cwd p) = true.
Proof.
  intros Hcwd Hp. unfold Pathlib.absolute, Pathlib.join.
  destruct (Pathlib.is_absolute p) eqn:E; [done|].
  pose proof (of_str_normal cwd) as [Hr Hc]. split.
  - split; [done|]. simpl. apply Forall_app. split; [done | apply Hp].
  - apply (of_str_absolute _ Hcwd).
Qed.

(** The text of the components starts like its first component. *)
Lemma join_first ps :
  Forall component_ok ps ->
  Str.join "/" ps = EmptyString \/
  exists c r, Str.join "/" ps = String c r /\ Str.char_eqb c "/" = false.
Proof.
  intros [|w ws [Hne [_ Hw]] _]; [by left|]. right.
  destruct w as [|c w]; [done|]. simpl in Hw.
  apply orb_false_iff in Hw as [Hc _].
  destruct ws; simpl; eauto.
Qed.

Lemma split_join ps :
  Forall component_ok ps ->
  Str.split "/" (Str.join "/" ps) = match ps with [] => [EmptyString] | _ => ps end.
Proof.
  induction 1 as [|w ws [_ [_ Hw]] Hws IH]; [done|].
  destruct ws as [|w' ws'].
  - simpl. by apply split_no_sep.
  - change (Str.join "/" (w :: w' :: ws'))
      with (w +:+ String "/" (Str.join "/" (w' :: ws'))).
    by rewrite (split_at_sep _ _ _ Hw), IH.
Qed.

Lemma components_join ps :
  Forall component_ok ps -> Pathlib.components (Str.join "/" ps) = ps.
Proof.
  intros Hps. unfold Pathlib.components. rewrite (split_join _ Hps).
  destruct ps as [|w ws]; [done|].
  induction Hps as [|c cs [H1 [H2 _]] _ IH]; [done|].
  rewrite filter_cons_True by done. by rewrite IH.
Qed.

Lemma lstrip_first s :
  (s = EmptyString \/
   exists c r, s = String c r /\ Str.char_eqb c "/" = false) ->
  Str.lstrip_char "/" s = s.
Proof. intros [->|(c & r & -> & Hc)]; simpl; [done | by rewrite Hc]. Qed.

Lemma startswith_slash rel : Str.startswith (String "/" rel) "/" = true.
Proof. by destruct rel. Qed.

Lemma splitroot_one_slash rel :
  Str.lstrip_char "/" rel = rel ->
  Pathlib.splitroot (String "/" rel) = ("/", rel).
Proof.
  intros Hrel. unfold Pathlib.splitroot.
  rewrite startswith_slash.
  change (Str.lstrip_char "/" (String "/" rel)) with (Str.lstrip_char "/" rel).
  rewrite Hrel. cbn [String.length].
  replace (S (String.length rel) - String.length rel)%nat with 1%nat by lia.
  reflexivity.
Qed.

Lemma splitroot_two_slashes rel :
  Str.lstrip_char "/" rel = rel ->
  Pathlib.splitroot (String "/" (String "/" rel)) = ("//", rel).
Proof.
  intros Hrel. unfold Pathlib.splitroot.
  rewrite startswith_slash.
  change (Str.lstrip_char "/" (String "/" (String "/" rel)))
    with (Str.lstrip_char "/" rel).
  rewrite Hrel. cbn [String.length].
  replace (S (S (String.length rel)) - String.length rel)%nat with 2%nat by lia.
  reflexivity.
Qed.

(** A normal absolute path is read back from its text. *)
Lemma of_str_to_str p :
  normal p -> Pathlib.is_absolute p = true ->
  Pathlib.of_str (Pathlib.to_str p) = p /\
  Str.startswith (Pathlib.to_str p) "/" = true.
Proof.
  destruct p as [r ps]. unfold normal, Pathlib.is_absolute. simpl.
  intros [Hr Hps] Habs.
  pose proof (lstrip_first _ (join_first _ Hps)) as Hstrip.
  destruct Hr as [->|[->| ->]]; [done| |].
  - change (Pathlib.to_str (mkPath "/" ps)) with (String "/" (Str.join "/" ps)).
    split; [|apply startswith_slash]. unfold Pathlib.of_str.
    by rewrite (splitroot_one_slash _ Hstrip), components_join.
  - change (Pathlib.to_str (mkPath "//" ps))
      with (String "/" (String "/" (Str.join "/" ps))).
    split; [|apply startswith_slash]. unfold Pathlib.of_str.
    by rewrite (splitroot_two_slashes _ Hstrip), components_join.
Qed.

Lemma expanduser_rooted w s :
  Str.startswith s "/" = true -> OsPath.expanduser w s = s.
Proof.
  intros Hs. unfold OsPath.expanduser.
  destruct s as [|c s]; [done|]. simpl in Hs.
  apply andb_true_iff in Hs as [Hc _].
  apply bool_decide_eq_true in Hc as <-. reflexivity.
Qed.

(** The text of a path that holds no dollar sign is left as it is. *)
Lemma expandvars_no_dollar w s :
  Str.contains "$" s = false -> OsPath.expandvars w s = s.
Proof. intros H. unfold OsPath.expandvars. by rewrite H. Qed.

(** The conversion of a path that is already absolute and whose text the
    expansion of variables leaves as it is. *)
Lemma _convertType_path_stable w p :
  normal p -> Pathlib.is_absolute p = true ->
  OsPath.expandvars w (Pathlib.to_str p) = Pathlib.to_str p ->
  _convertType w TPath (VPath p) = Ok (VPath p).
Proof.
  intros Hn Habs Hvars.
  destruct (of_str_to_str p Hn Habs) as [Hback Hslash].
  change (_convertType w TPath (VPath p))
    with (Ok (VPath (Pathlib.absolute (getcwd w)
                       (Pathlib.of_str
                          (OsPath.expanduser w
                             (OsPath.expandvars w (Pathlib.to_str p))))))).
  rewrite Hvars, (expanduser_rooted _ _ Hslash), Hback.
  unfold Pathlib.absolute. by rewrite Habs.
Qed.

Lemma _convertType_path_result w raw v :
  Str.startswith (getcwd w) "/" = true ->
  _convertType w TPath raw = Ok v ->
  v = VNone \/
  exists p, v = VPath p /\ normal p /\ Pathlib.is_absolute p = true.
Proof.
  intros Hcwd. unfold _convertType.
  destruct (is_None raw); [intros [= <-]; by left|].
  intros (r & _ & H)%bind_Ok. cbn in H. injection H as <-. right.
  eexists. split; [done|]. apply absolute_normal; [done | apply of_str_normal].
Qed.

(** C8, as the code has it. A value that [_convertType] returned is
    returned unchanged when it is converted again: for the types [str],
    [bool], [int], [list] and every enum in all cases, and for [Path]
    when the expansion of environment variables leaves the text of the
    converted path as it is, which is the case of every path without a
    dollar sign ([os.getcwd()] being an absolute path). *)
Theorem coercion_is_stable w t raw v :
  _convertType w t raw = Ok v ->
  (t = TPath ->
   Str.startswith (getcwd w) "/" = true /\
   forall p, v = VPath p ->
             OsPath.expandvars w (Pathlib.to_str p) = Pathlib.to_str p) ->
  _convertType w t v = Ok v.
Proof.
  intros Hconv Hpath.
  destruct (decide (t = TPath)) as [->|Ht].
  - destruct (Hpath eq_refl) as [Hcwd Hvars].
    destruct (_convertType_path_result _ _ _ Hcwd Hconv)
      as [->|(p & -> & Hn & Habs)]; [done|].
    apply _convertType_path_stable; auto.
  - clear Hpath. unfold _convertType in Hconv.
    destruct (is_None raw); [by injection Hconv as <-|].
    apply bind_Ok in Hconv as (r & _ & Hcall).
    rewrite bool_decide_eq_false_2 in Hcall by done.
    destruct t; try done; simpl in Hcall.
    + by injection Hcall as <-.
    + injection Hcall as <-. by destruct (Py.bool_ r).
    + by apply fmap_Ok in Hcall as (n & _ & ->).
    + by apply fmap_Ok in Hcall as (l & _ & ->).
    + pose proof (enum_call_idem _ _ _ Hcall) as Hidem.
      destruct v; try done; by rewrite <- Hidem.
Qed.

(** A path without a dollar sign, given relative to the working
    directory. *)
Lemma coercion_is_stable_witness :
  _convertType Demo.world TPath (VPath (mkPath "/" ["work"; "build"]))
  = Ok (VPath (mkPath "/" ["work"; "build"])).
Proof.
  apply (coercion_is_stable Demo.world TPath (VStr "./build")).
  - reflexivity.
  - intros _. split; [reflexivity|]. intros p [= <-]. reflexivity.
Defined.

(** C8 fails as stated for paths: with [A] set to the text [$B] and [B]
    set to [x], the string [/tmp/$A] is converted to the path [/tmp/$B],
    and converting that path again gives [/tmp/x]. *)
Lemma path_coercion_counterexample :
  _convertType Demo.nested_env_world TPath (VStr "/tmp/$A")
    = Ok (VPath (mkPath "/" ["tmp"; "$B"])) /\
  _convertType Demo.nested_env_world TPath (VPath (mkPath "/" ["tmp"; "$B"]))
    = Ok (VPath (mkPath "/" ["tmp"; "x"])) /\
  _convertType Demo.nested_env_world TPath (VPath (mkPath "/" ["tmp"; "$B"]))
    <> Ok (VPath (mkPath "/" ["tmp"; "$B"])).
Proof. split_and!; [reflexivity | reflexivity | discriminate]. Qed.

(** * Further properties of the loader *)

(** ** Enum options *)

Ltac ascii_cases c :=
  destruct c as [[] [] [] [] [] [] [] []]; try reflexivity; try discriminate.

Lemma map_chars_compose f g s :
  Str.map_chars f (Str.map_chars g s) = Str.map_chars (fun c => f (g c)) s.
Proof. induction s as [|c s IH]; simpl; [done | by rewrite IH]. Qed.

Lemma map_chars_ext f g s :
  (forall c, f c = g c) -> Str.map_chars f s = Str.map_chars g s.
Proof. intros H. induction s as [|c s IH]; simpl; [done | by rewrite H, IH]. Qed.

Lemma map_chars_id f s :
  first_bad_char s = None ->
  (forall c, enum_char_ok c = true -> f c = c) ->
  Str.map_chars f s = s.
Proof.
  intros Hs Hf. induction s as [|c s IH]; simpl in *; [done|].
  destruct (enum_char_ok c) eqn:E; [|discriminate].
  by rewrite (Hf c E), IH.
Qed.

Lemma check_members_ok members m :
  check_members members = None -> m ∈ members -> first_bad_char m = None.
Proof.
  induction members as [|m' ms IH]; simpl.
  - intros _ []%elem_of_nil.
  - destruct (first_bad_char m') eqn:E; [discriminate|].
    intros H [->|Hin]%elem_of_cons; [done | by apply IH].
Qed.

(** The normalisation of [_EnumArgparseType.__call__] leaves a member
    name as it is, and undoes its lower-casing with or without dashes. *)
Lemma normalise_lower_char c :
  enum_char_ok c = true ->
  (if Str.char_eqb (Str.upper_char (Str.lower_char c)) "-" then "_"%char
   else Str.upper_char (Str.lower_char c)) = c.
Proof. ascii_cases c. Qed.

Lemma normalise_dashed_char c :
  enum_char_ok c = true ->
  (let c1 := Str.lower_char c in
   let c2 := if Str.char_eqb c1 "_" then "-"%char else c1 in
   if Str.char_eqb (Str.upper_char c2) "-" then "_"%char
   else Str.upper_char c2) = c.
Proof. ascii_cases c. Qed.

(** X1. An enum class whose member names are strings of ASCII
    characters that pass the check of the constructor, names made of the
    letters [A] to [Z], digits and underscores: every choice the loader
    offers for it, the lower-cased name of a member, is converted back to
    that member, also when it is written with dashes in place of the
    underscores. *)
Theorem enum_choices_round_trip e m :
  Forall (fun name => Str.is_ascii name = true) (enum_members e) ->
  _EnumArgparseType_init e = inr e ->
  m ∈ enum_members e ->
  enum_call e (VStr (Str.lower m))
    = Ok (VEnum (mkEnumMember (enum_name e) m)) /\
  enum_call e (VStr (Str.replace "_" "-" (Str.lower m)))
    = Ok (VEnum (mkEnumMember (enum_name e) m)).
Proof.
  unfold _EnumArgparseType_init.
  intros _.
  destruct (check_members (enum_members e)) eqn:Hcheck; [discriminate|].
  intros _ Hm. pose proof (check_members_ok _ _ Hcheck Hm) as Hok.
  assert (Str.replace "-" "_" (Str.upper (Str.lower m)) = m) as Hplain.
  { unfold Str.replace, Str.upper, Str.lower. rewrite !map_chars_compose.
    apply (map_chars_id _ _ Hok). exact normalise_lower_char. }
  assert (Str.replace "-" "_" (Str.upper (Str.replace "_" "-" (Str.lower m)))
          = m) as Hdashed.
  { unfold Str.replace, Str.upper, Str.lower. rewrite !map_chars_compose.
    apply (map_chars_id _ _ Hok). exact normalise_dashed_char. }
  split; simpl.
  - rewrite Hplain. by rewrite bool_decide_eq_true_2.
  - rewrite Hdashed. by rewrite bool_decide_eq_true_2.
Qed.

(** X2. The conversion of a string of ASCII characters to an enum
    member does not depend on the case of the letters and takes a dash
    for an underscore. *)
Theorem enum_call_ignores_case_and_dashes e s :
  Str.is_ascii s = true ->
  enum_call e (VStr (Str.lower s)) = enum_call e (VStr s) /\
  enum_call e (VStr (Str.upper s)) = enum_call e (VStr s) /\
  enum_call e (VStr (Str.replace "-" "_" s)) = enum_call e (VStr s) /\
  enum_call e (VStr (Str.replace "_" "-" s)) = enum_call e (VStr s).
Proof.
  intros _.
  assert (forall f,
            (forall c,
                (if Str.char_eqb (Str.upper_char (f c)) "-" then "_"%char
                 else Str.upper_char (f c))
                = (if Str.char_eqb (Str.upper_char c) "-" then "_"%char
                   else Str.upper_char c)) ->
            enum_call e (VStr (Str.map_chars f s)) = enum_call e (VStr s))
    as Hsame.
  { intros f Hf. simpl.
    assert (Str.replace "-" "_" (Str.upper (Str.map_chars f s))
            = Str.replace "-" "_" (Str.upper s)) as ->; [|done].
    unfold Str.replace, Str.upper. rewrite !map_chars_compose.
    by apply map_chars_ext. }
  split_and!; apply Hsame; intros c; ascii_cases c.
Qed.

Lemma enum_choices_round_trip_witness :
  enum_call More.BuildType (VStr "rel-with-deb-info")
  = Ok (VEnum (mkEnumMember "BuildType" "REL_WITH_DEB_INFO")).
Proof.
  apply (enum_choices_round_trip More.BuildType "REL_WITH_DEB_INFO").
  - by repeat constructor.
  - reflexivity.
  - do 2 right. left.
Defined.

(** The build type written [Rel-With-Deb-Info]. *)
Lemma enum_call_ignores_case_and_dashes_witness :
  enum_call More.BuildType (VStr "rel-with-deb-info")
  = enum_call More.BuildType (VStr "Rel-With-Deb-Info").
Proof.
  exact (proj1 (enum_call_ignores_case_and_dashes More.BuildType
                  "Rel-With-Deb-Info" eq_refl)).
Defined.

(** ** Cached values *)

Section CacheFacts.

Context {CheriConfig Instance : Type}.

Implicit Types (ld : Loader CheriConfig Instance)
               (o : ConfigOption CheriConfig Instance)
               (cache : gmap string value).

(** X3. Once an option was read with a value other than [None], every
    later read returns that value and leaves the cache alone, whatever
    the command line, the JSON document, the environment or the object
    it is read on have become. *)
Theorem cached_value_is_kept w ld cache o config inst v cache' :
  __get__ w ld cache o config (Some inst) true = (Ok v, cache') ->
  v <> VNone ->
  forall w2 ld2 config2 inst2,
    __get__ w2 ld2 cache' o config2 (Some inst2) true = (Ok v, cache').
Proof.
  unfold __get__. simpl. intros Hget Hv w2 ld2 config2 inst2.
  apply is_None_false in Hv.
  destruct (is_None (_cached cache o)) eqn:Hc.
  - destruct (loadOption w ld o config inst) as [v'|e]; [|discriminate].
    injection Hget as -> <-.
    assert (_cached (<[name o := v]> cache) o = v) as ->; [|by rewrite Hv].
    unfold _cached. by rewrite lookup_insert_eq.
  - injection Hget as <- <-. by rewrite Hc.
Qed.

(** X4. Nothing is kept for an option whose resolution fails or gives
    [None]: the next read resolves it again, with the loader of that
    moment. *)
Theorem None_is_not_cached w ld cache o config inst r cache' :
  _cached cache o = VNone ->
  __get__ w ld cache o config (Some inst) true = (r, cache') ->
  (r = Ok VNone \/ exists e, r = Raise e) ->
  r = loadOption w ld o config inst /\
  forall w2 ld2 config2 inst2,
    (__get__ w2 ld2 cache' o config2 (Some inst2) true).1
    = loadOption w2 ld2 o config2 inst2.
Proof.
  unfold __get__. simpl. intros Hc. rewrite Hc. simpl.
  intros Hget Hr.
  assert (r = loadOption w ld o config inst /\ _cached cache' o = VNone)
    as [Hload Hc'].
  { destruct (loadOption w ld o config inst) as [v|e];
      injection Hget as <- <-; split; try done.
    destruct Hr as [[= ->]|[e [=]]].
    unfold _cached. by rewrite lookup_insert_eq. }
  split; [done|]. intros w2 ld2 config2 inst2. rewrite Hc'. simpl.
  by destruct (loadOption w2 ld2 o config2 inst2).
Qed.

Lemma foldr_reset_lookup (l : list (ConfigOption CheriConfig Instance))
    cache n :
  foldr (fun o c => <[name o := VNone]> c) cache l !! n =
    if bool_decide (n ∈ name <$> l) then Some VNone else cache !! n.
Proof.
  induction l as [|o l IH].
  { rewrite fmap_nil, bool_decide_eq_false_2; [done | apply not_elem_of_nil]. }
  rewrite fmap_cons. cbn [foldr].
  rewrite lookup_insert. destruct (decide (name o = n)) as [Hn|Hn].
  - subst. rewrite bool_decide_eq_true_2; [done | left].
  - rewrite IH. destruct (bool_decide (n ∈ name <$> l)) eqn:E.
    + apply bool_decide_eq_true in E. rewrite bool_decide_eq_true_2; [done|].
      by right.
    + apply bool_decide_eq_false in E. rewrite bool_decide_eq_false_2; [done|].
      intros [?|?]%elem_of_cons; congruence.
Qed.

(** X5. [reset] forgets the value of every option of the registry and
    of no other option; the first read of a registered option after a
    reset is a fresh resolution. *)
Theorem reset_forgets_registered ld cache o :
  (forall key, options ld !! key = Some o ->
     _cached (reset ld cache) o = VNone /\
     forall w ld2 config inst,
       (__get__ w ld2 (reset ld cache) o config (Some inst) true).1
       = loadOption w ld2 o config inst) /\
  ((forall key o', options ld !! key = Some o' -> name o' <> name o) ->
   _cached (reset ld cache) o = _cached cache o).
Proof.
  split.
  - intros key Hkey.
    assert (_cached (reset ld cache) o = VNone) as Hc.
    { unfold _cached, reset. rewrite foldr_reset_lookup.
      rewrite bool_decide_eq_true_2; [done|].
      apply list_elem_of_fmap. exists o. split; [done|].
      apply list_elem_of_fmap. exists (key, o). split; [done|].
      by apply elem_of_map_to_list. }
    split; [done|]. intros w ld2 config inst. unfold __get__. simpl.
    rewrite Hc. simpl. by destruct (loadOption w ld2 o config inst).
  - intros Hother. unfold _cached, reset. rewrite foldr_reset_lookup.
    rewrite bool_decide_eq_false_2; [done|].
    intros (o' & Hn & ([key o''] & -> & Hin)%list_elem_of_fmap)%list_elem_of_fmap.
    apply elem_of_map_to_list in Hin. simpl in Hn.
    by apply (Hother key o'' Hin).
Qed.

End CacheFacts.

(** [skip-update] read after [--skip-update] was passed. *)
Lemma cached_value_is_kept_witness :
  __get__ Demo.world (Demo.loaded ["--no-skip-update"] [])
    {[ "skip-update" := VBool true ]} Demo.skip_update tt (Some tt) true
  = (Ok (VBool true), {[ "skip-update" := VBool true ]}).
Proof.
  apply (cached_value_is_kept Demo.world (Demo.loaded ["--skip-update"] []) ∅
           Demo.skip_update tt tt).
  - reflexivity.
  - discriminate.
Defined.

(** An option without a default and with nothing set. *)
Lemma None_is_not_cached_witness :
  (__get__ Demo.world (Demo.loaded [] []) ∅ Demo.unregistered tt (Some tt)
     true).1
  = loadOption Demo.world (Demo.loaded [] []) Demo.unregistered tt tt.
Proof.
  destruct (None_is_not_cached Demo.world (Demo.loaded [] []) ∅
              Demo.unregistered tt tt (Ok VNone) (<[ "" := VNone ]> ∅))
    as [_ Hnext].
  - reflexivity.
  - reflexivity.
  - by left.
  - apply (Hnext Demo.world (Demo.loaded [] []) tt tt).
Defined.

Lemma reset_forgets_registered_witness :
  _cached (reset Demo.loader {[ "skip-update" := VBool true ]})
    Demo.skip_update
  = VNone.
Proof.
  destruct (reset_forgets_registered Demo.loader
              {[ "skip-update" := VBool true ]} Demo.skip_update)
    as [Hreg _].
  destruct (Hreg "skip-update") as [Hc _]; [reflexivity | exact Hc].
Defined.

(** ** Registering options *)

Section RegistrationFacts.

Context {CheriConfig Instance : Type}.

Implicit Types (ld : Loader CheriConfig Instance)
               (o : ConfigOption CheriConfig Instance).

Lemma CommandLineConfigOption_init_Ok c p nm sn
    (d : Default CheriConfig Instance) t group fb act ch o p' :
  CommandLineConfigOption_init c p nm sn d t group fb act ch = Ok (o, p') ->
  cls o = c /\ name o = nm /\ shortname o = sn /\ default_ o = d /\
  valueType o = t /\ _fallback_name o = fb /\ is_Some (action o) /\
  exists l, p' = p ++ l.
Proof.
  unfold CommandLineConfigOption_init.
  intros (? & _ & (? & _ & (p1 & Hp1 & (p2 & Hp2 & [= <- <-])%bind_Ok)
                   %bind_Ok)%bind_Ok)%bind_Ok.
  split_and!; try done.
  apply add_argument_Ok in Hp1 as [-> _].
  destruct (bool_decide (t = TBool)).
  - apply add_argument_Ok in Hp2 as [-> _]. rewrite <- app_assoc. eauto.
  - injection Hp2 as <-. eauto.
Qed.

(** X6. [addOption] succeeds only for a name that is not registered
    yet. The option it returns is then the entry of that name in the
    registry, with the value type and the default that were passed; the
    other entries of the registry, the parsed command line and the JSON
    document are what they were, and the parser has only grown. An
    option of the class that only has a default drops the fallback
    name. *)
Theorem addOption_registers ld nm sn (d : Default CheriConfig Instance) t
    group fb cls_kw act o ld' :
  addOption ld nm sn d t group fb cls_kw act = Ok (o, ld') ->
  options ld !! nm = None /\
  options ld' !! nm = Some o /\
  (forall key, key <> nm -> options ld' !! key = options ld !! key) /\
  name o = nm /\ valueType o = t /\ default_ o = d /\
  cls o = default (option_cls ld) cls_kw /\
  (cls o = DefaultValueOnly -> _fallback_name o = None /\ action o = None) /\
  (cls o <> DefaultValueOnly -> _fallback_name o = fb /\ is_Some (action o)) /\
  (exists l, parser ld' = parser ld ++ l) /\
  _parsedArgs ld' = _parsedArgs ld /\ _JSON ld' = _JSON ld.
Proof.
  unfold addOption.
  intros (ch & _ & ([o' p'] & Hinit & (? & Hfree & [= <- <-])%bind_Ok)
          %bind_Ok)%bind_Ok.
  assert (options ld !! nm = None) as Hnone.
  { unfold assert in Hfree. destruct (options ld !! nm); [|done].
    rewrite bool_decide_eq_true_2 in Hfree by by eexists. discriminate. }
  simpl. rewrite lookup_insert_eq.
  split_and!; try done.
  - intros key Hkey. by rewrite lookup_insert_ne.
  - destruct (default (option_cls ld) cls_kw) eqn:Hc.
    + by apply bind_Ok in Hinit as (o2 & (? & _ & [= <-])%bind_Ok & [= <- _]).
    + by apply CommandLineConfigOption_init_Ok in Hinit as (_ & ? & _).
    + by apply CommandLineConfigOption_init_Ok in Hinit as (_ & ? & _).
  - destruct (default (option_cls ld) cls_kw) eqn:Hc.
    + by apply bind_Ok in Hinit as (o2 & (? & _ & [= <-])%bind_Ok & [= <- _]).
    + by apply CommandLineConfigOption_init_Ok in Hinit as (_ & _ & _ & _ & ? & _).
    + by apply CommandLineConfigOption_init_Ok in Hinit as (_ & _ & _ & _ & ? & _).
  - destruct (default (option_cls ld) cls_kw) eqn:Hc.
    + by apply bind_Ok in Hinit as (o2 & (? & _ & [= <-])%bind_Ok & [= <- _]).
    + by apply CommandLineConfigOption_init_Ok in Hinit as (_ & _ & _ & ? & _).
    + by apply CommandLineConfigOption_init_Ok in Hinit as (_ & _ & _ & ? & _).
  - destruct (default (option_cls ld) cls_kw) eqn:Hc.
    + by apply bind_Ok in Hinit as (o2 & (? & _ & [= <-])%bind_Ok & [= <- _]).
    + by apply CommandLineConfigOption_init_Ok in Hinit as (? & _).
    + by apply CommandLineConfigOption_init_Ok in Hinit as (? & _).
  - destruct (default (option_cls ld) cls_kw) eqn:Hc.
    + by apply bind_Ok in Hinit as (o2 & (? & _ & [= <-])%bind_Ok & [= <- _]).
    + apply CommandLineConfigOption_init_Ok in Hinit as (-> & _). done.
    + apply CommandLineConfigOption_init_Ok in Hinit as (-> & _). done.
  - destruct (default (option_cls ld) cls_kw) eqn:Hc.
    + apply bind_Ok in Hinit as (o2 & (? & _ & [= <-])%bind_Ok & [= <- _]).
      done.
    + by apply CommandLineConfigOption_init_Ok
        in Hinit as (_ & _ & _ & _ & _ & ? & ? & _).
    + by apply CommandLineConfigOption_init_Ok
        in Hinit as (_ & _ & _ & _ & _ & ? & ? & _).
  - destruct (default (option_cls ld) cls_kw) eqn:Hc.
    + apply bind_Ok in Hinit as (o2 & _ & [= _ <-]). exists []. by rewrite app_nil_r.
    + by apply CommandLineConfigOption_init_Ok
        in Hinit as (_ & _ & _ & _ & _ & _ & _ & ?).
    + by apply CommandLineConfigOption_init_Ok
        in Hinit as (_ & _ & _ & _ & _ & _ & _ & ?).
Qed.

End RegistrationFacts.

Lemma addOption_registers_witness :
  options More.one_option !! "cheri-bits" = None /\
  options More.two_options !! "cheri-bits" = Some Demo.cheri_bits.
Proof.
  destruct (addOption_registers More.one_option "cheri-bits" None
              (Literal (VInt 256)) TInt None None None None Demo.cheri_bits
              More.two_options)
    as (Hfree & Hnew & _).
  - reflexivity.
  - by split.
Defined.

(** ** The layers an option reads *)

Section LayerFacts.

Context {CheriConfig Instance : Type}.

Implicit Types (ld : Loader CheriConfig Instance)
               (o : ConfigOption CheriConfig Instance).

Lemma walk_json_empty path :
  walk_json (VDict []) path = Ok (VDict []).
Proof. induction path as [|g path IH]; [done|]. simpl. apply IH. Qed.

Lemma _lookupKeyInJson_flat (js : dict) nm :
  Str.contains "/" nm = false ->
  _lookupKeyInJson js nm = Ok (Dict.get_or_None nm js).
Proof.
  intros Hnm. unfold _lookupKeyInJson, Dict.get_or_None.
  destruct (Dict.get nm js) as [v|] eqn:E; [done|].
  rewrite (split_no_sep _ _ Hnm). simpl. by rewrite E.
Qed.

(** X8. The keys of the JSON document an option without a short name
    and without a slash in its name is read from: the value under its
    name when that is not [null], and otherwise the value under the
    [dest] of its action, the deprecated key, which is not reported as
    the key used. *)
Theorem json_keys_of_an_option ld o a :
  action o = Some a ->
  option_strings a = ["--" +:+ name o] ->
  Str.contains "/" (name o) = false ->
  _loadFromJson ld o (fullOptionName o) =
    Ok (match Dict.get (name o) (_JSON ld) with
        | Some VNone | None => (Dict.get_or_None (dest a) (_JSON ld), None)
        | Some v => (v, Some (name o))
        end).
Proof.
  intros Ha Hs Hnm. unfold _loadFromJson, fullOptionName. rewrite Ha, Hs.
  rewrite (_lookupKeyInJson_flat _ _ Hnm). cbn.
  change ("--" +:+ name o) with (String "-" (String "-" (name o))).
  assert (Str.startswith (String "-" (String "-" (name o))) "--" = true) as ->.
  { simpl. by destruct (name o). }
  change (Str.drop 2 (String "-" (String "-" (name o)))) with (name o).
  rewrite (_lookupKeyInJson_flat _ _ Hnm). cbn.
  unfold Dict.get_or_None.
  destruct (Dict.get (name o) (_JSON ld)) as [v|]; [|done].
  by destruct v.
Qed.

(** X9. The nested form of a key [group/key] whose flat form is not in
    the document: a document without the group gives [None], and a group
    that is not an object is an [AttributeError], which [loadOption]
    raises for an option of that name that is not set on the command
    line. *)
Theorem nested_lookup_errors (js : dict) group key :
  Str.contains "/" group = false ->
  Str.contains "/" key = false ->
  Dict.get (group +:+ "/" +:+ key) js = None ->
  (Dict.get group js = None ->
   _lookupKeyInJson js (group +:+ "/" +:+ key) = Ok VNone) /\
  (forall v, Dict.get group js = Some v -> (forall d, v <> VDict d) ->
     _lookupKeyInJson js (group +:+ "/" +:+ key) = Raise AttributeError /\
     forall w ld o config instance,
       cls o = JsonAndCommandLine -> is_Some (action o) ->
       name o = group +:+ "/" +:+ key -> _JSON ld = js ->
       loadFromCommandLine ld o = Ok VNone ->
       loadOption w ld o config instance = Raise AttributeError).
Proof.
  intros Hg Hk Hflat.
  assert (forall v0, Dict.get group js = v0 ->
            _lookupKeyInJson js (group +:+ "/" +:+ key) =
              get_attr (default (VDict []) v0) key VNone) as Hwalk.
  { intros v0 Hv0. unfold _lookupKeyInJson. rewrite Hflat.
    change ("/" +:+ key) with (String "/" key).
    rewrite (split_at_sep _ _ _ Hg), (split_no_sep _ _ Hk). simpl.
    by rewrite Hv0. }
  split.
  - intros Hnone. by rewrite (Hwalk _ Hnone).
  - intros v Hv Hnd.
    assert (_lookupKeyInJson js (group +:+ "/" +:+ key) = Raise AttributeError)
      as Herr.
    { rewrite (Hwalk _ Hv). destruct v; try done. by destruct (Hnd d). }
    split; [done|].
    intros w ld o config instance Hcls [a Ha] Hname Hjs Hcmd.
    unfold loadOption, _loadOptionImpl. rewrite Hcls, Hcmd. cbn.
    unfold _loadFromJson, fullOptionName. by rewrite Ha, Hname, Hjs, Herr.
Qed.

End LayerFacts.

(** [skip-update] set by the deprecated key [skip_update]. *)
Lemma json_keys_of_an_option_witness :
  _loadFromJson (Demo.loaded [] [("skip_update", VBool true)]) Demo.skip_update
    "skip-update"
  = Ok (VBool true, None).
Proof.
  exact (json_keys_of_an_option (Demo.loaded [] [("skip_update", VBool true)])
           Demo.skip_update Demo.skip_action eq_refl eq_refl eq_refl).
Defined.

(** A document that holds a string under [qtbase]. *)
Lemma nested_lookup_errors_witness :
  loadOption Demo.world (Demo.loaded [] [("qtbase", VStr "x")])
    Demo.qtbase_build_tests tt tt
  = Raise AttributeError.
Proof.
  destruct (nested_lookup_errors (CheriConfig := unit) (Instance := unit)
              [("qtbase", VStr "x")] "qtbase" "build-tests"
              eq_refl eq_refl eq_refl) as [_ Hscalar].
  destruct (Hscalar (VStr "x") eq_refl) as [_ Hload]; [discriminate|].
  apply Hload; try reflexivity. by eexists.
Defined.

(** ** Chains of included files *)

(** X10. A file whose includes form a chain of files that load, the last
    one without an include: with a depth of at least the length of the
    chain the loader returns, writes nothing and reads no answer, and
    every key has the value of the first document of the chain that holds
    it, so that a file overrides everything it includes, at any
    distance. *)
Theorem include_chain_precedence w p ds :
  include_chain w p ds ->
  forall depth con,
    (length ds <= depth)%nat ->
    exists merged,
      load_json_with_includes depth w p con = (Ok merged, con) /\
      forall k, Dict.get k merged = first_found k ds.
Proof.
  induction 1 as [p d Hload Hno|p d inc ds Hload Hget Hinc _ IH];
    intros depth con Hdepth.
  - destruct depth as [|depth]; [simpl in Hdepth; lia|].
    exists d. split.
    + simpl. unfold load_or_ask. by rewrite Hload, Hno.
    + intros k. simpl. by destruct (Dict.get k d).
  - destruct depth as [|depth]; [simpl in Hdepth; lia|].
    destruct (IH depth con) as (base & Hbase & Hkeys);
      [simpl in Hdepth; lia|].
    exists (Dict.update base d). split.
    + by rewrite (load_json_with_includes_step _ _ _ _ _ _ Hload Hget Hinc),
        Hbase.
    + intros k. simpl.
      rewrite Dict_get_update
        by by apply (load_json_with_comments_NoDup _ _ _ Hload).
      by rewrite Hkeys.
Qed.

(** The configuration file of the test suite that includes
    [128-common.json]. *)
Lemma include_chain_precedence_witness :
  exists merged,
    load_json_with_includes 5 (Demo.file_world false) (Demo.cfg "config.json")
      (Demo.console []) = (Ok merged, Demo.console []) /\
    forall k, Dict.get k merged =
      first_found k [[("cheri-bits", VInt 256);
                      ("#include", VStr "128-common.json")];
                     [("cheri-bits", VInt 128)]].
Proof.
  apply (include_chain_precedence (Demo.file_world false)
           (Demo.cfg "config.json")
           [[("cheri-bits", VInt 256); ("#include", VStr "128-common.json")];
            [("cheri-bits", VInt 128)]]); [|simpl; lia].
  apply (chain_step _ _ _ "128-common.json");
    [reflexivity | reflexivity | discriminate |].
  apply chain_end; reflexivity.
Defined.

(** ** Comment lines *)

Lemma lstrip_blank indent s :
  Str.lstrip indent = EmptyString ->
  Str.lstrip (indent +:+ s) = Str.lstrip s.
Proof.
  induction indent as [|a indent IH]; [done|]. simpl.
  destruct (Str.is_space a); [exact IH | discriminate].
Qed.

Lemma rstrip_first a s :
  Str.is_space a = false ->
  exists r, Str.rstrip (String a s) = String a r.
Proof.
  intros Ha. simpl. rewrite Ha. destruct (Str.rstrip s); eauto.
Qed.

Lemma strip_first a s :
  Str.is_space a = false ->
  exists r, Str.strip (String a s) = String a r.
Proof.
  intros Ha. unfold Str.strip. cbn [Str.lstrip]. rewrite Ha.
  by apply rstrip_first.
Qed.

(** X11. In a configuration file of ASCII characters, a line whose
    first character after any white space is [#], or whose first two are
    [//], is dropped before the text is parsed: putting such a line
    anywhere into the file does not change what
    [__load_json_with_comments] returns or raises. *)
Theorem comment_lines_are_dropped indent rest c :
  Str.is_ascii c = true ->
  Str.lstrip indent = EmptyString ->
  c = indent +:+ String "#" rest \/
  c = indent +:+ String "/" (String "/" rest) ->
  is_comment_line c = true /\
  forall w p l1 l2,
    Forall (fun line => Str.is_ascii line = true) (l1 ++ l2) ->
    load_json_with_comments (with_file w p (l1 ++ c :: l2)) p
    = load_json_with_comments (with_file w p (l1 ++ l2)) p.
Proof.
  intros _ Hblank Hc.
  assert (is_comment_line c = true) as Hcomment.
  { unfold is_comment_line, Str.strip.
    destruct Hc as [-> | ->]; rewrite (lstrip_blank _ _ Hblank).
    - destruct (strip_first "#" rest eq_refl) as [r Hr].
      unfold Str.strip in Hr. rewrite Hr. simpl. by destruct r.
    - destruct (strip_first "/" (String "/" rest) eq_refl) as [r Hr].
      unfold Str.strip in Hr. rewrite Hr.
      assert (exists r', r = String "/" r') as [r' ->].
      { cbn [Str.lstrip] in Hr. change (Str.is_space "/") with false in Hr.
        cbn iota in Hr.
        destruct (rstrip_first "/" rest eq_refl) as [r1 Hr1].
        change (Str.rstrip (String "/" (String "/" rest)))
          with (match Str.rstrip (String "/" rest) with
                | EmptyString => String "/" EmptyString
                | r => String "/" r
                end) in Hr.
        rewrite Hr1 in Hr. injection Hr as <-. eauto. }
      simpl. destruct r'; by rewrite ?orb_true_r. }
  split; [done|].
  intros w p l1 l2 _. unfold load_json_with_comments, with_file. cbn.
  rewrite !decide_True by done. cbn.
  rewrite !filter_app, filter_cons_False; [done|].
  by rewrite Hcomment.
Qed.

(** The file [128-common.json] of the test suite with a [#] comment
    after two spaces in front of its line. *)
Lemma comment_lines_are_dropped_witness :
  load_json_with_comments
    (with_file (Demo.file_world false) (Demo.cfg "c.json")
       ("  # the bits" :: [Demo.common_128]))
    (Demo.cfg "c.json")
  = Ok (VDict [("cheri-bits", VInt 128)]).
Proof.
  destruct (comment_lines_are_dropped "  " " the bits" "  # the bits"
              eq_refl eq_refl (or_introl eq_refl)) as [_ Hsame].
  refine (eq_trans (Hsame (Demo.file_world false) (Demo.cfg "c.json") []
                      [Demo.common_128] _) _).
  - by repeat constructor.
  - reflexivity.
Defined.

(** ** Validation of the configuration file *)

Section ValidationFacts.

Context {CheriConfig Instance : Type}.

Implicit Types (ld : Loader CheriConfig Instance).

Lemma validate_VDict ld prefix key d :
  validate ld prefix key (VDict d)
  = (true, validate_each ld (prefix +:+ key) d).
Proof. reflexivity. Qed.

Lemma validate_leaf ld prefix key v :
  (forall d, v <> VDict d) ->
  validate ld prefix key v
  = if known_key ld (prefix +:+ key) then (true, [])
    else (false, [prefix +:+ key]).
Proof. intros Hv. destruct v; try reflexivity. by destruct (Hv d). Qed.

Lemma elem_of_validate_each ld fullname d x :
  x ∈ validate_each ld fullname d <->
  exists k v, (k, v) ∈ d /\ x ∈ (validate ld (fullname +:+ "/") k v).2.
Proof.
  induction d as [|[k v] d IH].
  - split; [by intros ?%not_elem_of_nil|].
    by intros (? & ? & ?%not_elem_of_nil & _).
  - change (validate_each ld fullname ((k, v) :: d))
      with ((validate ld (fullname +:+ "/") k v).2 ++ validate_each ld fullname d).
    rewrite elem_of_app, IH. split.
    + intros [Hx | (k' & v' & Hin & Hx)].
      * exists k, v. split; [left | done].
      * exists k', v'. split; [by right | done].
    + intros (k' & v' & Hin & Hx). apply elem_of_cons in Hin as [[= -> ->] | Hin].
      * by left.
      * right. eauto.
Qed.

(** X12. The names [__validate] prints as unknown for a value of the
    configuration file are exactly the names, joined with [/], of the
    values inside it that are not objects and that are neither
    [#include], nor the name of a registered option, nor the alternate
    name of one; the same holds for the whole file. An object is never
    reported itself, whatever its name. *)
Theorem unknown_keys_are_reported ld :
  (forall v prefix key fullname,
     fullname ∈ (validate ld prefix key v).2 <->
     leaf_name prefix key v fullname /\ known_key ld fullname = false) /\
  (forall fullname,
     fullname ∈ _validateConfigFile ld <->
     exists k v, (k, v) ∈ _JSON ld /\
                 leaf_name EmptyString k v fullname /\
                 known_key ld fullname = false).
Proof.
  assert (forall v prefix key fullname,
            fullname ∈ (validate ld prefix key v).2 <->
            leaf_name prefix key v fullname /\ known_key ld fullname = false)
    as Hone.
  { assert (forall v, (forall d, v <> VDict d) ->
              forall prefix key fullname,
                fullname ∈ (validate ld prefix key v).2 <->
                leaf_name prefix key v fullname /\
                known_key ld fullname = false) as Hleaf.
    { intros v Hv prefix key fullname. rewrite (validate_leaf _ _ _ _ Hv).
      split.
      - destruct (known_key ld (prefix +:+ key)) eqn:Hk;
          [by intros ?%not_elem_of_nil|].
        intros ->%list_elem_of_singleton. split; [by constructor | done].
      - intros [Hname Hk]. inversion Hname; subst; [|by edestruct Hv].
        rewrite Hk. by apply list_elem_of_singleton. }
    induction v as [| | | | |d IH| |] using value_dict_rect;
      try (apply Hleaf; discriminate).
    intros prefix key fullname.
    rewrite validate_VDict. cbn [snd]. rewrite elem_of_validate_each.
    rewrite Forall_forall in IH. split.
    - intros (k & v & Hin & Hx). apply (IH (k, v) Hin) in Hx as [Hname Hk].
      split; [|done]. by apply (leaf_inside _ _ _ k v).
    - intros [Hname Hk].
      inversion Hname as [? ? ? Hv|? ? ? k v ? Hin Hinner]; subst;
        [by edestruct Hv|].
      exists k, v. split; [done|]. by apply (IH (k, v) Hin). }
  split; [exact Hone|].
  intros fullname. unfold _validateConfigFile.
  induction (_JSON ld) as [|[k v] d IH].
  - split; [by intros ?%not_elem_of_nil|].
    by intros (? & ? & ?%not_elem_of_nil & _).
  - cbn [map concat fst snd]. rewrite elem_of_app, IH, Hone. split.
    + intros [[Hname Hk] | (k' & v' & Hin & Hrest)].
      * exists k, v. split; [left | done].
      * exists k', v'. split; [by right | done].
    + intros (k' & v' & Hin & Hname & Hk).
      apply elem_of_cons in Hin as [[= -> ->] | Hin]; [by left|].
      right. eauto.
Qed.

End ValidationFacts.

(** ** The negated flag of a boolean option *)

Lemma append_assoc (a b c : string) : (a +:+ b) +:+ c = a +:+ (b +:+ c).
Proof.
  induction a as [|x a IH]; [done|].
  change (String x ((a +:+ b) +:+ c) = String x (a +:+ (b +:+ c))).
  by rewrite IH.
Qed.

Lemma append_length (a b : string) :
  String.length (a +:+ b) = (String.length a + String.length b)%nat.
Proof.
  induction a as [|x a IH]; [done|].
  change (S (String.length (a +:+ b)) = S (String.length a + String.length b)).
  by rewrite IH.
Qed.

Lemma rfind_from_absent i c s :
  Str.contains c s = false -> Str.rfind_from i c s = -1.
Proof.
  revert i. induction s as [|a s IH]; intros i; [done|]. simpl.
  intros [Ha Hs]%orb_false_iff. by rewrite (IH _ Hs), Ha.
Qed.

Lemma rfind_from_last i c g k :
  0 <= i -> Str.contains c k = false ->
  Str.rfind_from i c (g +:+ String c k) = i + Z.of_nat (String.length g).
Proof.
  intros Hi Hk. revert i Hi. induction g as [|a g IH]; intros i Hi.
  - simpl. rewrite (rfind_from_absent _ _ _ Hk). simpl.
    unfold Str.char_eqb. rewrite bool_decide_eq_true_2 by done. lia.
  - change (String a g +:+ String c k) with (String a (g +:+ String c k)).
    cbn [Str.rfind_from String.length].
    rewrite IH by lia.
    destruct (Z.leb_spec 0 (i + 1 + Z.of_nat (String.length g))); lia.
Qed.

Lemma take_drop_app g s :
  Str.take (String.length g) (g +:+ s) = g /\
  Str.drop (String.length g) (g +:+ s) = s.
Proof.
  induction g as [|a g [IH1 IH2]]; [by destruct s|].
  change (String a g +:+ s) with (String a (g +:+ s)).
  cbn [String.length Str.take Str.drop]. by rewrite IH1, IH2.
Qed.

(** X13. The name of the flag that turns a boolean option off: [no-] is
    put in front of the part of the name after its last slash, so that
    the option [k] has the flag [no-k] and the option [g/k] of a target
    [g] the flag [g/no-k]. *)
Theorem negated_flag_name g k :
  Str.contains "/" k = false ->
  negatedName k = "no-" +:+ k /\
  negatedName (g +:+ "/" +:+ k) = g +:+ "/no-" +:+ k.
Proof.
  intros Hk. split.
  - unfold negatedName, Str.rfind. by rewrite (rfind_from_absent _ _ _ Hk).
  - unfold negatedName, Str.rfind.
    change ("/" +:+ k) with (String "/" k).
    rewrite (rfind_from_last 0 "/" g k) by done.
    replace (Z.to_nat (0 + Z.of_nat (String.length g) + 1))
      with (String.length (g +:+ "/"))
      by (rewrite append_length; simpl; lia).
    replace (g +:+ String "/" k) with ((g +:+ "/") +:+ k)
      by by rewrite append_assoc.
    destruct (take_drop_app (g +:+ "/") k) as [-> ->].
    by rewrite append_assoc.
Qed.

(** The flag that turns [qtbase/build-tests] off. *)
Lemma negated_flag_name_witness :
  negatedName "build-tests" = "no-build-tests" /\
  negatedName "qtbase/build-tests" = "qtbase/no-build-tests".
Proof. exact (negated_flag_name "qtbase" "build-tests" eq_refl). Defined.

(** ** The prefix of the configuration file *)

Lemma contains_app c a b :
  Str.contains c (a +:+ b) = (Str.contains c a || Str.contains c b)%bool.
Proof.
  induction a as [|x a IH]; [done|].
  change (String x a +:+ b) with (String x (a +:+ b)).
  cbn [Str.contains]. by rewrite IH, orb_assoc.
Qed.

Lemma split_nonempty sep s : Str.split sep s <> [].
Proof.
  destruct s as [|c s]; [done|]. simpl.
  destruct (Str.char_eqb c sep); [done|]. by destruct (Str.split sep s).
Qed.

Lemma split_last sep x nm :
  Str.contains sep nm = false ->
  Str.split sep (x +:+ String sep nm) = Str.split sep x ++ [nm].
Proof.
  intros Hnm. induction x as [|c x IH].
  - change (EmptyString +:+ String sep nm) with (String sep nm).
    cbn [Str.split]. unfold Str.char_eqb at 1.
    rewrite bool_decide_eq_true_2 by done.
    by rewrite (split_no_sep _ _ Hnm).
  - change (String c x +:+ String sep nm) with (String c (x +:+ String sep nm)).
    cbn [Str.split]. rewrite IH.
    destruct (Str.char_eqb c sep); [done|].
    pose proof (split_nonempty sep x).
    by destruct (Str.split sep x).
Qed.

Lemma lstrip_char_keeps_last x nm :
  Str.contains "/" nm = false ->
  Str.lstrip_char "/" (x +:+ String "/" nm) = nm \/
  exists y, Str.lstrip_char "/" (x +:+ String "/" nm) = y +:+ String "/" nm.
Proof.
  intros Hnm. induction x as [|c x IH].
  - left. change (EmptyString +:+ String "/" nm) with (String "/" nm).
    destruct nm as [|a nm]; [done|]. simpl in *.
    apply orb_false_iff in Hnm as [-> _]. done.
  - change (String c x +:+ String "/" nm) with (String c (x +:+ String "/" nm)).
    cbn [Str.lstrip_char]. destruct (Str.char_eqb c "/"); [exact IH|].
    right. by exists (String c x).
Qed.

Lemma components_last nm :
  nm <> EmptyString -> nm <> "." -> Str.contains "/" nm = false ->
  Pathlib.components nm = [nm] /\
  forall x, List.last (Pathlib.components (x +:+ String "/" nm)) EmptyString = nm.
Proof.
  intros H1 H2 Hnm. unfold Pathlib.components. split.
  - rewrite (split_no_sep _ _ Hnm). by rewrite filter_cons_True.
  - intros x. rewrite (split_last _ _ _ Hnm), filter_app.
    rewrite (filter_cons_True _ nm) by done.
    rewrite filter_nil. apply last_last.
Qed.

Lemma Path_name_of_str nm :
  nm <> EmptyString -> nm <> "." -> Str.contains "/" nm = false ->
  Path_name (Pathlib.of_str nm) = nm /\
  forall dir, Path_name (Pathlib.of_str (dir +:+ String "/" nm)) = nm.
Proof.
  intros H1 H2 Hnm.
  destruct (components_last nm H1 H2 Hnm) as [Hone Hlast]. split.
  - unfold Pathlib.of_str, Pathlib.splitroot.
    assert (Str.startswith nm "/" = false) as ->.
    { destruct nm as [|a nm]; [done|]. simpl in *.
      apply orb_false_iff in Hnm as [Ha _].
      unfold Str.char_eqb in *. apply bool_decide_eq_false in Ha.
      rewrite bool_decide_eq_false_2; [done|]. congruence. }
    unfold Path_name. simpl. by rewrite Hone.
  - intros dir. unfold Pathlib.of_str, Pathlib.splitroot, Path_name.
    destruct (Str.startswith (dir +:+ String "/" nm) "/"); [|apply Hlast].
    assert (List.last (Pathlib.components
              (Str.lstrip_char "/" (dir +:+ String "/" nm))) EmptyString = nm)
      as Hrel.
    { destruct (lstrip_char_keeps_last dir nm Hnm) as [-> | [y ->]];
        [by rewrite Hone | apply Hlast]. }
    by destruct (_ =? _)%nat.
Qed.

Lemma program_name prefix :
  Str.contains "/" prefix = false ->
  let program := prefix +:+ "cheribuild.py" in
  program <> EmptyString /\ program <> "." /\
  Str.contains "/" program = false /\
  String.length program = (String.length prefix + 13)%nat.
Proof.
  intros Hp program.
  assert (String.length program = (String.length prefix + 13)%nat) as Hlen.
  { unfold program. by rewrite append_length. }
  split_and!; [| | |done].
  - intros E. rewrite E in Hlen. simpl in Hlen. lia.
  - intros E. rewrite E in Hlen. simpl in Hlen. lia.
  - unfold program. by rewrite contains_app, Hp.
Qed.

Lemma get_config_prefix_of prefix argv0 :
  Str.contains "/" prefix = false ->
  Path_name (Pathlib.of_str argv0) = prefix +:+ "cheribuild.py" ->
  get_config_prefix argv0 = prefix.
Proof.
  intros Hp E. destruct (program_name prefix Hp) as (_ & _ & _ & Hlen).
  cbv zeta in Hlen. unfold get_config_prefix. rewrite E.
  change (String.length "cheribuild.py") with 13%nat.
  replace (String.length (prefix +:+ "cheribuild.py") - 13)%nat
    with (String.length prefix) by lia.
  unfold endswith. change (String.length "cheribuild.py") with 13%nat.
  replace (String.length (prefix +:+ "cheribuild.py") - 13)%nat
    with (String.length prefix) by lia.
  destruct (take_drop_app prefix "cheribuild.py") as [Htake Hdrop].
  rewrite Htake, Hdrop, Str_eqb_refl, andb_true_r.
  destruct (Nat.leb_spec 13 (String.length (prefix +:+ "cheribuild.py")));
    [done | lia].
Qed.

(** X14. The prefix of the name of the configuration file: for a program
    called [<prefix>cheribuild.py], in any directory, it is that prefix,
    so that [stable-cheribuild.py] reads [stable-cheribuild.json]. *)
Theorem config_prefix_of_program dir prefix :
  Str.contains "/" prefix = false ->
  get_config_prefix (prefix +:+ "cheribuild.py") = prefix /\
  get_config_prefix (dir +:+ "/" +:+ prefix +:+ "cheribuild.py") = prefix.
Proof.
  intros Hp. destruct (program_name prefix Hp) as (H1 & H2 & H3 & _).
  destruct (Path_name_of_str _ H1 H2 H3) as [Hname Hdir].
  split; apply (get_config_prefix_of _ _ Hp); [done | apply Hdir].
Qed.

(** The program [stable-cheribuild.py] started from [/usr/bin]. *)
Lemma config_prefix_of_program_witness :
  get_config_prefix "stable-cheribuild.py" = "stable-" /\
  get_config_prefix "/usr/bin/stable-cheribuild.py" = "stable-".
Proof. exact (config_prefix_of_program "/usr/bin" "stable-" eq_refl). Defined.

(** ** Paths *)

Section PathFacts.

Context {CheriConfig Instance : Type}.

Implicit Types (ld : Loader CheriConfig Instance)
               (o : ConfigOption CheriConfig Instance).




End PathFacts.



(** ** A missing configuration file, and values that are not converted *)

Section LoadFacts.

Context {CheriConfig Instance : Type}.

Implicit Types (ld : Loader CheriConfig Instance)
               (o : ConfigOption CheriConfig Instance).

Lemma _lookupKeyInJson_empty nm : _lookupKeyInJson [] nm = Ok VNone.
Proof.
  unfold _lookupKeyInJson. cbn [Dict.get].
  by rewrite walk_json_empty.
Qed.

Lemma old_json_key_empty strings : old_json_key [] strings = Ok (VNone, None).
Proof.
  induction strings as [|s strings IH]; [done|]. cbn [old_json_key].
  destruct (Str.startswith s "--"); [|done].
  by rewrite _lookupKeyInJson_empty.
Qed.

(** X17. [_load_json_config_file] for a loader whose [_configPath]
    names a file that does not exist: it returns, at any depth, and the
    file is not read; the document of the loader is empty, its registry
    and its parsed command line are what they were, no key is found in
    the document for any option, and every option that reads the command
    line resolves as an option that only reads the command line does. *)
Theorem missing_config_file depth w ld _configPath con :
  exists_ w _configPath = false ->
  exists ld',
    (_load_json_config_file depth w ld _configPath con).1 = Ok ld' /\
    _JSON ld' = [] /\ _parsedArgs ld' = _parsedArgs ld /\
    options ld' = options ld /\
    (forall o, is_Some (action o) ->
       _loadFromJson ld' o (fullOptionName o) = Ok (VNone, None)) /\
    (forall o, cls o <> DefaultValueOnly ->
       _loadOptionImpl ld' o = loadFromCommandLine ld' o).
Proof.
  intros Hmissing.
  exists (with_JSON ld []).
  assert (forall o, is_Some (action o) ->
            _loadFromJson (with_JSON ld []) o (fullOptionName o)
            = Ok (VNone, None)) as Hjson.
  { intros o [a Ha]. unfold _loadFromJson. rewrite Ha. cbn [_JSON with_JSON].
    rewrite _lookupKeyInJson_empty. cbn.
    by rewrite old_json_key_empty. }
  split_and!; try done.
  - unfold _load_json_config_file. by rewrite Hmissing.
  - intros o Hcls. unfold _loadOptionImpl.
    destruct (cls o); [done..|].
    destruct (action o) as [a|] eqn:Ha.
    + rewrite Hjson by by rewrite Ha.
      destruct (loadFromCommandLine _ o) as [v|e]; [|done]. cbn.
      unfold ne_action_default. by destruct (is_None v) eqn:E;
        [apply is_None_true in E as ->|].
    + unfold loadFromCommandLine. cbn.
      destruct (_parsedArgs ld); [|done]. by rewrite Ha.
Qed.

(** X18. A string of ASCII characters that names no member of the enum
    of an option, found on the command line or in the JSON document: the
    [ArgumentTypeError] of the conversion is not a [ValueError], so
    [loadOption] raises it as it is, with the name of the enum and the
    choices, and does not call [fatalError]. *)
Theorem invalid_enum_value_is_raised w ld o config instance e s :
  valueType o = TEnum e ->
  Str.is_ascii s = true ->
  _loadOptionImpl ld o = Ok (VStr s) ->
  Str.replace "-" "_" (Str.upper s) ∉ enum_members e ->
  loadOption w ld o config instance
  = Raise (ArgumentTypeError (enum_name e) (map Str.lower (enum_members e))).
Proof.
  intros Ht _ Himpl Hs.
  rewrite (loadOption_found w ld o config instance (VStr s) Himpl) by done.
  unfold convert_or_exit, _convertType. rewrite Ht. cbn.
  rewrite andb_false_r. cbn.
  rewrite (bool_decide_eq_false_2 (TEnum e = TPath)) by done.
  by rewrite bool_decide_eq_false_2.
Qed.

(** X19. A name is registered once: after [addOption] has returned for a
    name, every further [addOption] for that name raises, whatever its
    other arguments are. *)
Theorem option_names_are_unique ld nm sn (d : Default CheriConfig Instance)
    t group fb cls_kw action_kw o ld' :
  addOption ld nm sn d t group fb cls_kw action_kw = Ok (o, ld') ->
  forall sn' (d' : Default CheriConfig Instance) t' group' fb' cls_kw'
         action_kw',
    exists e,
      addOption ld' nm sn' d' t' group' fb' cls_kw' action_kw' = Raise e.
Proof.
  intros Hadd.
  assert (options ld' !! nm = Some o) as Hreg.
  { unfold addOption in Hadd.
    apply bind_Ok in Hadd as (ch & _ & Hadd).
    apply bind_Ok in Hadd as ([o1 p1] & _ & Hadd).
    apply bind_Ok in Hadd as ([] & _ & [= <- <-]). simpl.
    by rewrite lookup_insert_eq. }
  intros sn' d' t' group' fb' cls_kw' action_kw'. unfold addOption.
  destruct (match t' with
            | TEnum e0 =>
                _ ← assert (bool_decide (action_kw' = None \/ action_kw' = Some Append));
                Ok (Some (map Str.lower (enum_members e0)))
            | _ => Ok None
            end) as [ch|e1]; [|by eexists].
  cbn.
  destruct (match default (option_cls ld') cls_kw' with
            | DefaultValueOnly => _
            | _ => _
            end) as [[o2 p2]|e2]; [|by eexists].
  cbn. rewrite Hreg. rewrite bool_decide_eq_true_2 by done. cbn.
  by eexists.
Qed.

End LoadFacts.

(** The loader of the test suite, whose configuration file
    [/this/does/not/exist] does not exist, after the parser took the
    action of [--skip-update]. *)
Lemma missing_config_file_witness :
  exists ld',
    (_load_json_config_file 0 Demo.world
       (Demo.after [(Demo.skip_action, None)] [("skip-update", VBool false)])
       (mkPath "/" ["this"; "does"; "not"; "exist"]) (Demo.console [])).1
    = Ok ld' /\
    _JSON ld' = [] /\
    _loadOptionImpl ld' Demo.skip_update = Ok (VBool true).
Proof.
  destruct (missing_config_file 0 Demo.world
              (Demo.after [(Demo.skip_action, None)] [("skip-update", VBool false)])
              (mkPath "/" ["this"; "does"; "not"; "exist"]) (Demo.console [])
              eq_refl)
    as (ld' & Hload & Hjson & Hargs & _ & _ & Himpl).
  exists ld'. split_and!; [done..|].
  rewrite Himpl by discriminate.
  unfold loadFromCommandLine. by rewrite Hargs.
Defined.

(** The build type [fast] in the configuration file. *)
Lemma invalid_enum_value_is_raised_witness :
  loadOption Demo.world (More.loaded [] [("build-type", VStr "fast")])
    More.build_type tt tt
  = Raise (ArgumentTypeError "BuildType" ["debug"; "release"; "rel_with_deb_info"]).
Proof.
  apply (invalid_enum_value_is_raised Demo.world
           (More.loaded [] [("build-type", VStr "fast")]) More.build_type tt tt
           More.BuildType "fast").
  - reflexivity.
  - reflexivity.
  - reflexivity.
  - vm_compute. intros H. by repeat (apply elem_of_cons in H as [H|H];
      [discriminate|]); apply not_elem_of_nil in H.
Defined.

(** [cheri-bits] registered a second time, as a boolean option. *)
Lemma option_names_are_unique_witness :
  exists e,
    addOption More.two_options "cheri-bits" None (Literal (VBool false)) TBool
      None None None (Some StoreTrue) = Raise e.
Proof.
  apply (option_names_are_unique More.one_option "cheri-bits" None
           (Literal (VInt 256)) TInt None None None None Demo.cheri_bits
           More.two_options).
  reflexivity.
Defined.

(** ** The two flags of a boolean option *)

Lemma take_action_Raise a arg ns e :
  Argparse.take_action a arg ns = Raise e -> e = SystemExit 2.
Proof.
  unfold Argparse.take_action, Argparse.check_choice.
  destruct (kind a), arg as [v|]; try (by intros [= <-]); try done;
    destruct (choices a) as [cs|]; try done;
    destruct (bool_decide (v ∈ cs)); try done; by intros [= <-].
Qed.

(** Every error of a run of actions is [parser.error]. *)
Lemma run_actions_Raise taken : forall seen ns e,
  Argparse.run_actions seen ns taken = Raise e -> e = SystemExit 2.
Proof.
  induction taken as [|[a arg] taken IH]; intros seen ns e; [done|].
  cbn [Argparse.run_actions].
  destruct (Argparse.conflicts seen a); [by intros [= <-]|].
  destruct (Argparse.take_action a arg ns) as [ns1|e1] eqn:Ht; cbn.
  - apply IH.
  - intros [= <-]. by eapply take_action_Raise.
Qed.

Lemma conflicts_cons a0 seen c :
  Argparse.conflicts (a0 :: seen) c = false ->
  Argparse.conflicts seen c = false /\
  forall g, exclusive c = Some g -> exclusive a0 = Some g -> a0 = c.
Proof.
  unfold Argparse.conflicts. destruct (exclusive c) as [g|]; [|done].
  cbn [existsb]. intros [Hhead Hseen]%orb_false_iff. split; [done|].
  intros g' [= <-] Ha0. apply bool_decide_eq_false in Hhead.
  destruct (decide (a0 = c)) as [|Hne]; [done|]. by destruct Hhead.
Qed.

(** A run of actions that returns takes at most one action of a mutually
    exclusive group. *)
Lemma run_actions_exclusive taken : forall seen ns ns',
  Argparse.run_actions seen ns taken = Ok ns' ->
  (forall c, c ∈ taken.*1 -> Argparse.conflicts seen c = false) /\
  (forall c c' g, c ∈ taken.*1 -> c' ∈ taken.*1 ->
     exclusive c = Some g -> exclusive c' = Some g -> c = c').
Proof.
  induction taken as [|[a arg] taken IH]; intros seen ns ns'.
  { intros _. split; [by intros c ?%not_elem_of_nil|].
    by intros c c' g ?%not_elem_of_nil. }
  cbn [Argparse.run_actions].
  destruct (Argparse.conflicts seen a) eqn:Hconf; [done|].
  intros (ns1 & _ & Hrun)%bind_Ok.
  destruct (IH _ _ _ Hrun) as [Hseen Hpairs].
  rewrite fmap_cons. cbn [fst]. split.
  - intros c [->|Hc]%elem_of_cons; [done|].
    by apply (conflicts_cons a seen c), Hseen.
  - intros c c' g [->|Hc]%elem_of_cons [->|Hc']%elem_of_cons Hg Hg'.
    + done.
    + by apply (proj2 (conflicts_cons a seen c' (Hseen _ Hc')) g).
    + symmetry. by apply (proj2 (conflicts_cons a seen c (Hseen _ Hc)) g).
    + by apply (Hpairs c c' g).
Qed.

Section ExclusiveFlags.

Context {CheriConfig Instance : Type}.

Implicit Types (ld : Loader CheriConfig Instance)
               (o : ConfigOption CheriConfig Instance).

(** The two actions the constructor adds for a boolean option that is in
    no group: they share a mutually exclusive group of their own. *)
Lemma bool_init_flags c p nm sn (d : Default CheriConfig Instance) fb o p' :
  CommandLineConfigOption_init c p nm sn d TBool None fb (Some StoreTrue) None
  = Ok (o, p') ->
  exists a neg,
    Argparse.find_action p' ("--" +:+ nm) = Some a /\
    Argparse.find_action p' ("--" +:+ negatedName nm) = Some neg /\
    exclusive a = Some (OwnGroup nm) /\ exclusive neg = Some (OwnGroup nm) /\
    kind a = StoreTrue /\ kind neg = StoreFalse.
Proof.
  unfold CommandLineConfigOption_init. intros Hinit.
  apply bind_Ok in Hinit as ([] & _ & Hinit).
  apply bind_Ok in Hinit as ([] & _ & Hinit).
  apply bind_Ok in Hinit as (p1 & Hp1 & Hinit).
  apply bind_Ok in Hinit as (p2 & Hp2 & [= <- <-]).
  apply add_argument_Ok in Hp1 as [-> Hnew1].
  apply add_argument_Ok in Hp2 as [-> Hnew2].
  set (strings := match has_shortname sn with
                  | Some sn0 => ["--" +:+ nm; "-" +:+ sn0]
                  | None => ["--" +:+ nm]
                  end) in *.
  assert ("--" +:+ nm ∈ strings) as Hin.
  { unfold strings. destruct (has_shortname sn); left. }
  match type of Hnew1 with
  | forall s, s ∈ option_strings ?a0 -> _ => set (a := a0) in *
  end.
  match type of Hnew2 with
  | forall s, s ∈ option_strings ?n0 -> _ => set (neg := n0) in *
  end.
  exists a, neg. split_and!; try reflexivity.
  - rewrite !find_action_app, (Hnew1 _ Hin).
    unfold Argparse.find_action. simpl. by rewrite bool_decide_eq_true_2.
  - assert ("--" +:+ negatedName nm ∈ option_strings neg) as Hn by left.
    rewrite find_action_app, (Hnew2 _ Hn).
    unfold Argparse.find_action. simpl. by rewrite bool_decide_eq_true_2.
Qed.

(** X20. A boolean option registered by [addBoolOption] without a
    group: its flag and its negated flag are two actions of the parser,
    and a run of the parser that takes both of them, in any order and
    among any other actions, is refused: the parser exits with
    status 2. *)
Theorem both_flags_are_refused ld nm sn dflt fb o ld' :
  option_cls ld <> DefaultValueOnly ->
  addBoolOption ld nm sn dflt None fb = Ok (o, ld') ->
  exists a neg,
    Argparse.find_action (parser ld') ("--" +:+ nm) = Some a /\
    Argparse.find_action (parser ld') ("--" +:+ negatedName nm) = Some neg /\
    a <> neg /\
    forall taken ns,
      a ∈ taken.*1 -> neg ∈ taken.*1 ->
      Argparse.run_actions [] ns taken = Raise (SystemExit 2).
Proof.
  intros Hcls Hadd. unfold addBoolOption, addOption in Hadd.
  cbn in Hadd.
  assert (exists o' p',
            CommandLineConfigOption_init (option_cls ld) (parser ld) nm sn
              (Literal (VBool dflt)) TBool None fb (Some StoreTrue) None
            = Ok (o', p') /\ parser ld' = p') as (o' & p' & Hinit & Hparser).
  { destruct (option_cls ld); [done| |];
      apply bind_Ok in Hadd as ([o' p'] & Hinit & Hrest);
      apply bind_Ok in Hrest as ([] & _ & [= <- <-]); by exists o', p'. }
  rewrite Hparser.
  destruct (bool_init_flags _ _ _ _ _ _ _ _ Hinit)
    as (a & neg & Ha & Hn & Hga & Hgn & Hka & Hkn).
  assert (a <> neg) as Hne.
  { intros Heq. rewrite Heq in Hka. congruence. }
  exists a, neg. split_and!; [done..|].
  intros taken ns Hpa Hpn.
  destruct (Argparse.run_actions [] ns taken) as [ns'|e] eqn:Hrun.
  - destruct (run_actions_exclusive _ _ _ _ Hrun) as [_ Hpairs].
    by destruct (Hne (Hpairs a neg _ Hpa Hpn Hga Hgn)).
  - by rewrite (run_actions_Raise _ _ _ _ Hrun).
Qed.

End ExclusiveFlags.

(** [--no-skip-update] and then [--skip-update]. *)
Lemma both_flags_are_refused_witness :
  Argparse.run_actions [] (Argparse.init_namespace (parser More.one_option))
    [(Demo.no_skip_action, None); (Demo.skip_action, None)]
  = Raise (SystemExit 2).
Proof.
  destruct (both_flags_are_refused Demo.start "skip-update" None false None
              Demo.skip_update More.one_option)
    as (a & neg & Ha & Hn & _ & Hrefused).
  - discriminate.
  - reflexivity.
  - injection Ha as <-. injection Hn as <-.
    apply Hrefused; apply list_elem_of_In; simpl; tauto.
Defined.

(** ** The pairs hook, once more *)

Lemma raise_on_duplicates_NoDup pairs : forall d,
  NoDup (d ++ pairs).*1 -> raise_on_duplicates d pairs = Ok (d ++ pairs).
Proof.
  induction pairs as [|[k v] pairs IH]; intros d Hnd; simpl.
  - by rewrite app_nil_r.
  - assert (Dict.mem k d = false) as E.
    { apply Dict_mem_false. intros Hk.
      rewrite fmap_app, fmap_cons in Hnd.
      apply NoDup_app in Hnd as (_ & Hdisj & _). apply (Hdisj _ Hk). left. }
    rewrite E, (Dict_set_fresh _ _ _ E).
    rewrite IH; rewrite <- app_assoc; done.
Qed.

(** X21. The only error of the decoder is a repeated key: the pairs
    hook returns the pairs it is given, in their order, exactly when
    their keys are all different; a text is decoded exactly when none of
    its objects has a repeated key; and a decoded object has the keys of
    the text in the order of the text. *)
Theorem repeated_keys_are_the_only_error :
  (forall pairs,
     dict_raise_on_duplicates pairs = Ok pairs <-> NoDup pairs.*1) /\
  (forall pairs d, dict_raise_on_duplicates pairs = Ok d -> d = pairs) /\
  (forall j, (exists v, decode j = Ok v) <-> forall k, ~ has_dup_key j k) /\
  (forall ps d, decode (RObj ps) = Ok (VDict d) -> d.*1 = ps.*1).
Proof.
  split_and!.
  - intros pairs. unfold dict_raise_on_duplicates. split.
    + intros [_ Hnd]%raise_on_duplicates_Ok. apply Hnd, NoDup_nil_2.
    + intros Hnd. by apply (raise_on_duplicates_NoDup pairs []).
  - intros pairs d. unfold dict_raise_on_duplicates.
    by intros [-> _]%raise_on_duplicates_Ok.
  - intros j. split.
    + intros [v Hv] k. by eapply decode_Ok.
    + intros Hnone. destruct (decode j) as [v|e] eqn:E; [by eexists|].
      apply decode_Raise in E as (k & _ & Hk). by destruct (Hnone k).
  - intros ps d. rewrite decode_RObj. intros (pairs & Hp & Hr)%bind_Ok.
    apply fmap_Ok in Hr as (d' & Hr & [= ->]).
    apply decode_pairs_Ok in Hp as [Hkeys _].
    unfold dict_raise_on_duplicates in Hr.
    apply raise_on_duplicates_Ok in Hr as [-> _]. done.
Qed.

(** ** Alternate names and the registrations of a kind *)

Section AlternateNames.

Context {CheriConfig Instance : Type}.

Implicit Types (ld : Loader CheriConfig Instance)
               (o : ConfigOption CheriConfig Instance).

Lemma startswith_two_dashes s : Str.startswith ("--" +:+ s) "--" = true.
Proof.
  change ("--" +:+ s) with (String "-" (String "-" s)). simpl. by destruct s.
Qed.

(** X22. An option registered with a short name that starts with a
    dash has a second long flag, and the name of that flag is an
    alternate key of the configuration file: when the document has no
    value under the name of the option, [_loadFromJson] returns the value
    under the alternate key and reports that key as the old key used, and
    [__validate] knows the alternate key. *)
Theorem alternate_name_is_read_and_known ld o a alt v :
  options ld !! name o = Some o ->
  shortname o = Some ("-" +:+ alt) ->
  action o = Some a ->
  option_strings a = ["--" +:+ name o; "--" +:+ alt] ->
  alt <> EmptyString -> Str.startswith alt "-" = false ->
  Str.contains "/" (name o) = false -> Str.contains "/" alt = false ->
  Dict.get_or_None (name o) (_JSON ld) = VNone ->
  Dict.get alt (_JSON ld) = Some v -> v <> VNone ->
  _loadFromJson ld o (fullOptionName o) = Ok (v, Some alt) /\
  known_key ld alt = true.
Proof.
  intros Hreg Hsn Ha Hstrings Halt Hdash Hnm Hslash Hnone Hget Hv. split.
  - unfold _loadFromJson, fullOptionName. rewrite Ha, Hstrings.
    rewrite (_lookupKeyInJson_flat _ _ Hnm), Hnone.
    change (Ok VNone ≫= ?f) with (f VNone). cbn beta.
    change (is_None VNone) with true. cbn iota.
    cbn [old_json_key]. rewrite !startswith_two_dashes.
    change (Str.drop 2 ("--" +:+ name o)) with (name o).
    change (Str.drop 2 ("--" +:+ alt)) with alt.
    rewrite (_lookupKeyInJson_flat _ _ Hnm), Hnone.
    change (Ok VNone ≫= ?f) with (f VNone). cbn beta.
    change (negb (is_None VNone)) with false. cbn iota.
    rewrite (_lookupKeyInJson_flat _ _ Hslash). unfold Dict.get_or_None.
    rewrite Hget. apply is_None_false in Hv. cbn. rewrite Hv. cbn.
    by rewrite Hv.
  - unfold known_key. apply orb_true_iff. right.
    apply existsb_exists. exists o. split.
    + apply list_elem_of_In, list_elem_of_fmap. exists (name o, o).
      split; [done|]. by apply elem_of_map_to_list.
    + apply bool_decide_eq_true. unfold alternateName. rewrite Hsn.
      change ("-" +:+ alt) with (String "-" alt).
      destruct alt as [|c alt]; [done|]. cbn.
      assert (Str.char_eqb c "-" = false) as ->; [|done].
      unfold Str.char_eqb. apply bool_decide_eq_false. intros ->.
      by rewrite startswith_dash in Hdash.
Qed.

Lemma addOption_option ld nm sn (d : Default CheriConfig Instance) t
    group fb cls_kw act o ld' :
  addOption ld nm sn d t group fb cls_kw act = Ok (o, ld') ->
  options ld' !! nm = Some o /\ name o = nm /\ valueType o = t /\
  cls o = default (option_cls ld) cls_kw /\
  (cls o = DefaultValueOnly -> _fallback_name o = None) /\
  (cls o <> DefaultValueOnly -> _fallback_name o = fb).
Proof.
  unfold addOption.
  intros (ch & _ & ([o' p'] & Hinit & (? & Hfree & [= <- <-])%bind_Ok)
          %bind_Ok)%bind_Ok.
  simpl. rewrite lookup_insert_eq.
  destruct (default (option_cls ld) cls_kw) eqn:Hc.
  - apply bind_Ok in Hinit as (o2 & (? & _ & [= <-])%bind_Ok & [= <- _]).
    by split_and!.
  - apply CommandLineConfigOption_init_Ok
      in Hinit as (E1 & E2 & _ & _ & E3 & E4 & _).
    rewrite E1. by split_and!.
  - apply CommandLineConfigOption_init_Ok
      in Hinit as (E1 & E2 & _ & _ & E3 & E4 & _).
    rewrite E1. by split_and!.
Qed.

(** X23. An option registered by [addCommandLineOnlyOption] or
    [addCommandLineOnlyBoolOption] has the class
    [CommandLineConfigOption], whatever the class of the other options
    of the loader, and keeps the fallback name it was given. Its own
    value never depends on the JSON document; registered without a
    fallback name, it resolves to the same value for every JSON
    document. *)
Theorem command_line_only_options ld o ld' fb :
  (exists nm sn d t group action_kw,
     addCommandLineOnlyOption ld nm sn d t group fb action_kw
     = Ok (o, ld')) \/
  (exists nm sn dflt group,
     addCommandLineOnlyBoolOption ld nm sn dflt group fb = Ok (o, ld')) ->
  cls o = CommandLine /\ _fallback_name o = fb /\
  (forall ld2 js, _loadOptionImpl (with_JSON ld2 js) o = _loadOptionImpl ld2 o) /\
  (fb = None ->
   forall w ld2 js config instance,
     loadOption w (with_JSON ld2 js) o config instance
     = loadOption w ld2 o config instance).
Proof.
  intros Hreg.
  assert (cls o = CommandLine /\ _fallback_name o = fb) as [Hcls Hfb].
  { destruct Hreg as [(nm & sn & d & t & group & k & Hadd)
                     |(nm & sn & dflt & group & Hadd)];
      unfold addCommandLineOnlyOption, addCommandLineOnlyBoolOption in Hadd;
      apply addOption_option in Hadd as (_ & _ & _ & Hc & _ & Hf);
      simpl in Hc; (split; [done|]); apply Hf; by rewrite Hc. }
  split_and!; [done..| |].
  - intros ld2 js. unfold _loadOptionImpl. by rewrite Hcls.
  - intros -> w ld2 js config instance.
    unfold loadOption, _loadOptionImpl, load_fallback. by rewrite Hcls, Hfb.
Qed.

(** X7. A loader of the class [DefaultValueOnlyConfigLoader]: what
    [addOption] registers with it adds nothing to the parser and has
    lost the fallback name it was given, and it resolves to its
    converted default for every state of every loader, whatever the
    command line and the JSON document hold. *)
Theorem default_only_loader_uses_defaults ld nm sn
    (d : Default CheriConfig Instance) t group fb action_kw o ld' :
  option_cls ld = DefaultValueOnly ->
  addOption ld nm sn d t group fb None action_kw = Ok (o, ld') ->
  parser ld' = parser ld /\ _fallback_name o = None /\
  forall w ld2 config instance,
    loadOption w ld2 o config instance
    = convert_or_exit w o match d with
                          | Literal v => v
                          | Computed f => f config instance
                          end.
Proof.
  intros Hld Hadd.
  assert (parser ld' = parser ld /\ cls o = DefaultValueOnly /\
          _fallback_name o = None /\ default_ o = d) as (Hp & Hcls & Hfb & Hd).
  { unfold addOption in Hadd. cbn [default] in Hadd. rewrite Hld in Hadd.
    apply bind_Ok in Hadd as (ch & _ & Hadd).
    apply bind_Ok in Hadd as ([o1 p1] & Hinit & Hadd).
    apply bind_Ok in Hadd as ([] & _ & [= <- <-]).
    apply bind_Ok in Hinit as (o2 & (? & _ & [= <-])%bind_Ok & [= <- <-]).
    done. }
  split_and!; [done..|].
  intros w ld2 config instance.
  unfold loadOption, _loadOptionImpl, load_fallback, _getDefaultValue.
  by rewrite Hcls, Hfb, Hd.
Qed.


End AlternateNames.

(** [source-root] set under its alternate key [source-dir]. *)
Lemma alternate_name_is_read_and_known_witness :
  _loadFromJson (with_JSON More.alternate_loader [("source-dir", VStr "/src")])
    More.source_root "source-root"
  = Ok (VStr "/src", Some "source-dir") /\
  known_key (with_JSON More.alternate_loader [("source-dir", VStr "/src")])
    "source-dir" = true.
Proof.
  apply (alternate_name_is_read_and_known
           (with_JSON More.alternate_loader [("source-dir", VStr "/src")])
           More.source_root More.source_root_action "source-dir" (VStr "/src"));
    try reflexivity; discriminate.
Defined.

(** [keep-install-dir] of the Jenkins configuration, not passed on the
    command line and set to [true] in the configuration file. *)
Lemma command_line_only_options_witness :
  loadOption Demo.world
    (with_JSON More.jenkins_parsed [("keep-install-dir", VBool true)])
    More.keep_install_dir tt tt
  = Ok (VBool false).
Proof.
  destruct (command_line_only_options Demo.start More.keep_install_dir
              More.jenkins_loader None) as (_ & _ & _ & Hsame).
  - right. exists "keep-install-dir", None, false, None. reflexivity.
  - refine (eq_trans (Hsame eq_refl Demo.world More.jenkins_parsed
                        [("keep-install-dir", VBool true)] tt tt) _).
    reflexivity.
Defined.

(** [qtbase-mips/cheri-bits] registered with the loader that only has
    defaults, against a loader whose command line and configuration file
    both set [cheri-bits]. *)
Lemma default_only_loader_uses_defaults_witness :
  loadOption Demo.world
    (Demo.loaded ["--cheri-bits"; "128"] [("cheri-bits", VInt 128)])
    More.default_bits tt tt
  = Ok (VInt 256).
Proof.
  destruct (default_only_loader_uses_defaults More.defaults_start
              "qtbase-mips/cheri-bits" None (Literal (VInt 256)) TInt None
              (Some "cheri-bits") None More.default_bits More.defaults_loader)
    as (_ & _ & Hdefault).
  - reflexivity.
  - reflexivity.
  - refine (eq_trans (Hdefault Demo.world _ tt tt) _). reflexivity.
Defined.


(** ** The default configuration file *)

Lemma of_str_name nm :
  nm <> EmptyString -> nm <> "." -> Str.contains "/" nm = false ->
  Pathlib.of_str nm = mkPath EmptyString [nm].
Proof.
  intros H1 H2 Hnm. destruct (components_last nm H1 H2 Hnm) as [Hone _].
  unfold Pathlib.of_str, Pathlib.splitroot.
  assert (Str.startswith nm "/" = false) as ->; [|by rewrite Hone].
  destruct nm as [|a nm]; [done|]. simpl in *.
  apply orb_false_iff in Hnm as [Ha _].
  unfold Str.char_eqb in *. apply bool_decide_eq_false in Ha.
  rewrite bool_decide_eq_false_2; [done|]. congruence.
Qed.

(** X25. The default configuration file of a program called
    [<prefix>cheribuild.py]: it is named [<prefix>cheribuild.json] and
    lies in the configuration directory, which is the value of
    [XDG_CONFIG_HOME] when that is set and not empty, and [~/.config]
    otherwise. *)
Theorem default_config_file_location w dir prefix :
  Str.contains "/" prefix = false ->
  let path :=
    defaultConfigPath w (dir +:+ "/" +:+ prefix +:+ "cheribuild.py") in
  Path_name path = prefix +:+ "cheribuild.json" /\
  Pathlib.parent path = Pathlib.of_str (configdir w) /\
  (forall d, environ w !! "XDG_CONFIG_HOME" = Some d -> d <> EmptyString ->
             configdir w = d) /\
  (environ w !! "XDG_CONFIG_HOME" = None \/
   environ w !! "XDG_CONFIG_HOME" = Some EmptyString ->
   configdir w = OsPath.expanduser w "~/.config").
Proof.
  intros Hp path.
  assert (path = mkPath (root (Pathlib.of_str (configdir w)))
                   (parts (Pathlib.of_str (configdir w))
                      ++ [prefix +:+ "cheribuild.json"])) as ->.
  { unfold path, defaultConfigPath.
    destruct (program_name prefix Hp) as (H1 & H2 & H3 & _).
    destruct (Path_name_of_str _ H1 H2 H3) as [_ Hdir].
    rewrite (get_config_prefix_of prefix _ Hp) by apply Hdir.
    unfold Pathlib.div.
    rewrite (of_str_name (prefix +:+ "cheribuild.json")); [done| | |].
    - intros E. apply (f_equal String.length) in E.
      rewrite append_length in E. simpl in E. lia.
    - intros E. apply (f_equal String.length) in E.
      rewrite append_length in E. simpl in E. lia.
    - by rewrite contains_app, Hp. }
  split_and!.
  - unfold Path_name. simpl. apply last_last.
  - destruct (Pathlib.of_str (configdir w)) as [r ps].
    unfold Pathlib.parent. cbn [parts root].
    destruct (ps ++ [prefix +:+ "cheribuild.json"]) as [|c cs] eqn:E;
      [by destruct ps|].
    by rewrite <- E, removelast_last.
  - intros d Hd Hne. unfold configdir. rewrite Hd. by destruct d.
  - intros [E|E]; unfold configdir; by rewrite E.
Qed.

(** The program [stable-cheribuild.py] started from [/usr/bin]. *)
Lemma default_config_file_location_witness :
  Path_name (defaultConfigPath Demo.world "/usr/bin/stable-cheribuild.py")
  = "stable-cheribuild.json" /\
  Pathlib.parent (defaultConfigPath Demo.world "/usr/bin/stable-cheribuild.py")
  = Pathlib.of_str (configdir Demo.world).
Proof.
  destruct (default_config_file_location Demo.world "/usr/bin" "stable-"
              eq_refl) as (Hname & Hparent & _).
  by split.
Defined.
